(** * node-osc4bitwig: the mirrored Bitwig session and its OSC traffic

    A shallow embedding of [index.js], [lib/song.js], [lib/track.js] and
    [lib/clip.js], and the properties of the mirrored state that follow from
    it.

    - A JavaScript object is a record kept in a store: the one Song in the
      world, the Tracks and the Clips in two heaps addressed by allocation
      order.  An array of objects ([song.tracks], [track.clips]) is a list of
      references, and [clip.track] is a reference, so an id is always read
      through the object, as the code does.
    - A closure handed to [bitwig.receiver.on] is a constructor of [Listener]
      naming the object (and index) it captured; the receiver is the list of
      (address, handler) pairs in registration order.
    - A method or handler is a computation in a state-and-trace monad.  It
      returns or raises; either way the world and the trace it reached are
      kept.  The trace lists, in order, what was given to an [EventEmitter]
      (with the world as it stood at that moment, which is what a
      synchronous observer reads) and what was given to the OSC emitter.
    - Observers registered through [Song.prototype.on], [Track.prototype.on]
      and [Clip.prototype.on] are taken to read only, and the world does not
      hold who listens on a registry: the event name [error], whose emission
      raises when nobody listens, is never used by the library and is left
      out of what is stated of arbitrary names.  The receiver's handlers are
      all in the world, and there an unheard [error] raises.  The [debug] wrapper
      of [index.js], which logs and forwards, is left out, as are the unused
      [track.devices] array and [sendListener], whose registration is
      commented out in the source. *)

From Stdlib Require Import ZArith List Bool DecimalString.
From stdpp Require Import base decidable list strings numbers.

Open Scope string_scope.
Open Scope list_scope.
Open Scope Z_scope.

(** ** JavaScript values carried by messages and fields

    The library never inspects a payload: it stores it, copies it into an
    event object and, for outbound calls, tests it for truthiness or splices
    it into an address.  Numbers are therefore kept as integers. *)

Inductive value : Type :=
  | VUndef
  | VNum (n : Z)
  | VStr (s : string)
  | VBool (b : bool).

#[global] Instance value_eq_dec : EqDecision value.
Proof. solve_decision. Defined.

(** [if (x)] *)
Definition truthy (v : value) : bool :=
  match v with
  | VUndef => false
  | VNum n => negb (n =? 0)
  | VStr s => negb (String.eqb s "")
  | VBool b => b
  end.

(** Decimal rendering of a number inside a string concatenation. *)
Definition string_of_Z (n : Z) : string := NilZero.string_of_int (Z.to_int n).

(** ['...' + x] *)
Definition toString (v : value) : string :=
  match v with
  | VUndef => "undefined"
  | VNum n => string_of_Z n
  | VStr s => s
  | VBool true => "true"
  | VBool false => "false"
  end.

(** [arguments[i]] of a handler: a missing positional argument is undefined. *)
Definition arg (i : nat) (args : list value) : value := nth i args VUndef.

(** An event object such as [{value: v, prev: p}]: keys in insertion order. *)
Definition Payload := list (string * value).

Fixpoint payload_get (k : string) (p : Payload) : value :=
  match p with
  | [] => VUndef
  | (k', v) :: p' => if String.eqb k k' then v else payload_get k p'
  end.

Fixpoint payload_put (k : string) (v : value) (p : Payload) : Payload :=
  match p with
  | [] => [(k, v)]
  | (k', v') :: p' =>
      if String.eqb k k' then (k', v) :: p' else (k', v') :: payload_put k v p'
  end.

(** [_.extend(dst, src)]: every key of [src] is assigned on [dst]. *)
Definition extend (dst src : Payload) : Payload :=
  fold_left (fun acc kv => payload_put (fst kv) (snd kv) acc) src dst.

(** An outbound OSC argument: a bare value or a [{type, value}] pair. *)
Inductive Arg : Type :=
  | Bare (v : value)
  | Typed (type : string) (v : value).

(** ** Objects *)

(** [{name: '', value: 0}] *)
Record FxParam := mkFxParam { fx_name : value; fx_value : value }.

(** [{name: '', volume: 0}] *)
Record Send := mkSend { send_name : value; send_volume : value }.

Module Clip.
(** The six fields a Clip mirrors. *)
Inductive field := index_ | isSelected_ | hasContent_ | isPlaying_ | isRecording_ | isQueued_.

Record t := mk {
  track : nat;          (* this.track: reference to the owning Track *)
  id : Z;               (* this.id *)
  index : value;
  isSelected : value;
  hasContent : value;
  isPlaying : value;
  isRecording : value;
  isQueued : value
}.

Definition get (f : field) (c : t) : value :=
  match f with
  | index_ => index c
  | isSelected_ => isSelected c
  | hasContent_ => hasContent c
  | isPlaying_ => isPlaying c
  | isRecording_ => isRecording c
  | isQueued_ => isQueued c
  end.

Definition set (f : field) (v : value) (c : t) : t :=
  match f with
  | index_ => mk (track c) (id c) v (isSelected c) (hasContent c) (isPlaying c) (isRecording c) (isQueued c)
  | isSelected_ => mk (track c) (id c) (index c) v (hasContent c) (isPlaying c) (isRecording c) (isQueued c)
  | hasContent_ => mk (track c) (id c) (index c) (isSelected c) v (isPlaying c) (isRecording c) (isQueued c)
  | isPlaying_ => mk (track c) (id c) (index c) (isSelected c) (hasContent c) v (isRecording c) (isQueued c)
  | isRecording_ => mk (track c) (id c) (index c) (isSelected c) (hasContent c) (isPlaying c) v (isQueued c)
  | isQueued_ => mk (track c) (id c) (index c) (isSelected c) (hasContent c) (isPlaying c) (isRecording c) v
  end.

(** The event name, which is also the last segment of the address. *)
Definition name (f : field) : string :=
  match f with
  | index_ => "index"
  | isSelected_ => "isSelected"
  | hasContent_ => "hasContent"
  | isPlaying_ => "isPlaying"
  | isRecording_ => "isRecording"
  | isQueued_ => "isQueued"
  end.

Definition fields : list field :=
  [index_; isSelected_; hasContent_; isPlaying_; isRecording_; isQueued_].
End Clip.

Module Track.
(** The fields a Track mirrors through a listener of the common shape. *)
Inductive field := solo_ | recarm_ | mute_ | volume_ | pan_ | name_ | vu_ | selected_.

Record t := mk {
  id : Z;                     (* this.id *)
  clips : list nat;           (* this.clips: references to Clip objects *)
  sends : list Send;          (* this.sends *)
  solo : value;
  mute : value;
  recarm : value;
  volume : value;
  pan : value;
  selected : value;
  name : value;               (* never assigned by the constructor *)
  vu : value;                 (* never assigned by the constructor *)
  numScenes : option Z        (* assigned by setNumScenes only *)
}.

Definition get (f : field) (x : t) : value :=
  match f with
  | solo_ => solo x
  | recarm_ => recarm x
  | mute_ => mute x
  | volume_ => volume x
  | pan_ => pan x
  | name_ => name x
  | vu_ => vu x
  | selected_ => selected x
  end.

Definition set (f : field) (v : value) (x : t) : t :=
  match f with
  | solo_ => mk (id x) (clips x) (sends x) v (mute x) (recarm x) (volume x) (pan x) (selected x) (name x) (vu x) (numScenes x)
  | mute_ => mk (id x) (clips x) (sends x) (solo x) v (recarm x) (volume x) (pan x) (selected x) (name x) (vu x) (numScenes x)
  | recarm_ => mk (id x) (clips x) (sends x) (solo x) (mute x) v (volume x) (pan x) (selected x) (name x) (vu x) (numScenes x)
  | volume_ => mk (id x) (clips x) (sends x) (solo x) (mute x) (recarm x) v (pan x) (selected x) (name x) (vu x) (numScenes x)
  | pan_ => mk (id x) (clips x) (sends x) (solo x) (mute x) (recarm x) (volume x) v (selected x) (name x) (vu x) (numScenes x)
  | selected_ => mk (id x) (clips x) (sends x) (solo x) (mute x) (recarm x) (volume x) (pan x) v (name x) (vu x) (numScenes x)
  | name_ => mk (id x) (clips x) (sends x) (solo x) (mute x) (recarm x) (volume x) (pan x) (selected x) v (vu x) (numScenes x)
  | vu_ => mk (id x) (clips x) (sends x) (solo x) (mute x) (recarm x) (volume x) (pan x) (selected x) (name x) v (numScenes x)
  end.

Definition set_clips (cs : list nat) (x : t) : t :=
  mk (id x) cs (sends x) (solo x) (mute x) (recarm x) (volume x) (pan x) (selected x) (name x) (vu x) (numScenes x).

Definition set_sends (ss : list Send) (x : t) : t :=
  mk (id x) (clips x) ss (solo x) (mute x) (recarm x) (volume x) (pan x) (selected x) (name x) (vu x) (numScenes x).

Definition set_numScenes (n : option Z) (x : t) : t :=
  mk (id x) (clips x) (sends x) (solo x) (mute x) (recarm x) (volume x) (pan x) (selected x) (name x) (vu x) n.

(** The event name, which is also the last segment of the address. *)
Definition evname (f : field) : string :=
  match f with
  | solo_ => "solo"
  | recarm_ => "recarm"
  | mute_ => "mute"
  | volume_ => "volume"
  | pan_ => "pan"
  | name_ => "name"
  | vu_ => "vu"
  | selected_ => "selected"
  end.

(** The listeners the constructor registers, in registration order;
    [nameListener] is defined but not among them. *)
Definition registered : list field :=
  [solo_; recarm_; mute_; pan_; volume_; vu_; selected_].
End Track.

Module Song.
(** The fields the Song mirrors. *)
Inductive field :=
  playing_ | recording_ | click_ | solo_ | mute_ | recarm_ | volume_ | pan_ | selected_.

Record t := mk {
  tracks : list nat;          (* this.tracks: references to Track objects *)
  fxparams : list FxParam;    (* this.fxparams *)
  volume : value;
  pan : value;
  click : value;
  playing : value;
  recording : value;
  selectedTrack : value;
  solo : value;               (* never assigned by the constructor *)
  mute : value;               (* never assigned by the constructor *)
  recarm : value;             (* never assigned by the constructor *)
  selected : value            (* never assigned by the constructor *)
}.

Definition get (f : field) (s : t) : value :=
  match f with
  | playing_ => playing s
  | recording_ => recording s
  | click_ => click s
  | solo_ => solo s
  | mute_ => mute s
  | recarm_ => recarm s
  | volume_ => volume s
  | pan_ => pan s
  | selected_ => selected s
  end.

Definition set (f : field) (v : value) (s : t) : t :=
  match f with
  | volume_ => mk (tracks s) (fxparams s) v (pan s) (click s) (playing s) (recording s) (selectedTrack s) (solo s) (mute s) (recarm s) (selected s)
  | pan_ => mk (tracks s) (fxparams s) (volume s) v (click s) (playing s) (recording s) (selectedTrack s) (solo s) (mute s) (recarm s) (selected s)
  | click_ => mk (tracks s) (fxparams s) (volume s) (pan s) v (playing s) (recording s) (selectedTrack s) (solo s) (mute s) (recarm s) (selected s)
  | playing_ => mk (tracks s) (fxparams s) (volume s) (pan s) (click s) v (recording s) (selectedTrack s) (solo s) (mute s) (recarm s) (selected s)
  | recording_ => mk (tracks s) (fxparams s) (volume s) (pan s) (click s) (playing s) v (selectedTrack s) (solo s) (mute s) (recarm s) (selected s)
  | solo_ => mk (tracks s) (fxparams s) (volume s) (pan s) (click s) (playing s) (recording s) (selectedTrack s) v (mute s) (recarm s) (selected s)
  | mute_ => mk (tracks s) (fxparams s) (volume s) (pan s) (click s) (playing s) (recording s) (selectedTrack s) (solo s) v (recarm s) (selected s)
  | recarm_ => mk (tracks s) (fxparams s) (volume s) (pan s) (click s) (playing s) (recording s) (selectedTrack s) (solo s) (mute s) v (selected s)
  | selected_ => mk (tracks s) (fxparams s) (volume s) (pan s) (click s) (playing s) (recording s) (selectedTrack s) (solo s) (mute s) (recarm s) v
  end.

Definition set_tracks (ts : list nat) (s : t) : t :=
  mk ts (fxparams s) (volume s) (pan s) (click s) (playing s) (recording s) (selectedTrack s) (solo s) (mute s) (recarm s) (selected s).

Definition set_fxparams (ps : list FxParam) (s : t) : t :=
  mk (tracks s) ps (volume s) (pan s) (click s) (playing s) (recording s) (selectedTrack s) (solo s) (mute s) (recarm s) (selected s).

(** The name under which the listener of a field emits. *)
Definition evname (f : field) : string :=
  match f with
  | playing_ => "play"
  | recording_ => "record"
  | click_ => "click"
  | solo_ => "solo"
  | mute_ => "mute"
  | recarm_ => "recarm"
  | volume_ => "volume"
  | pan_ => "pan"
  | selected_ => "selected"
  end.

(** The address the listener of a field is registered on. *)
Definition address (f : field) : string :=
  match f with
  | playing_ => "/play"
  | recording_ => "/record"
  | click_ => "/click"
  | solo_ => "/master/solo"
  | mute_ => "/master/mute"
  | recarm_ => "/master/recarm"
  | volume_ => "/master/volume"
  | pan_ => "/master/pan"
  | selected_ => "/master/selected"
  end.

(** Registration order in the constructor. *)
Definition fields : list field :=
  [playing_; recording_; click_; solo_; mute_; recarm_; volume_; pan_; selected_].
End Song.

#[global] Instance clip_field_eq_dec : EqDecision Clip.field.
Proof. solve_decision. Defined.
#[global] Instance track_field_eq_dec : EqDecision Track.field.
Proof. solve_decision. Defined.
#[global] Instance song_field_eq_dec : EqDecision Song.field.
Proof. solve_decision. Defined.

(** ** The receiver's handlers

    Each constructor stands for one closure handed to [bitwig.receiver.on]
    and names the object the closure captured as [self] (and, for the
    per-index closures, the captured [i]). *)
Inductive Listener : Type :=
  | SongL (f : Song.field)
  | FxNameL (i : nat)
  | FxValueL (i : nat)
  | TrackL (t : nat) (f : Track.field)
  | SendNameL (t : nat) (i : nat)
  | SendVolumeL (t : nat) (i : nat)
  | ClipL (c : nat) (f : Clip.field).

#[global] Instance Listener_eq_dec : EqDecision Listener.
Proof. solve_decision. Defined.

(** ** The world: the OSC4Bitwig instance and every object reachable from it *)
Record World := mkWorld {
  song : Song.t;                         (* bitwig.song *)
  trackHeap : list Track.t;              (* every Track ever constructed *)
  clipHeap : list Clip.t;                (* every Clip ever constructed *)
  receiver : list (string * Listener)    (* bitwig.receiver: (address, handler), oldest first *)
}.

Definition set_song (s : Song.t) (w : World) : World :=
  mkWorld s (trackHeap w) (clipHeap w) (receiver w).
Definition set_trackHeap (h : list Track.t) (w : World) : World :=
  mkWorld (song w) h (clipHeap w) (receiver w).
Definition set_clipHeap (h : list Clip.t) (w : World) : World :=
  mkWorld (song w) (trackHeap w) h (receiver w).
Definition set_receiver (r : list (string * Listener)) (w : World) : World :=
  mkWorld (song w) (trackHeap w) (clipHeap w) r.

(** The three event registries. *)
Inductive Emitter : Type :=
  | SongEmitter                 (* song.eventEmitter *)
  | TrackEmitter (t : nat)      (* track.eventEmitter *)
  | ClipEmitter (c : nat).      (* clip.eventEmitter *)

#[global] Instance Emitter_eq_dec : EqDecision Emitter.
Proof. solve_decision. Defined.

(** What a method hands to the outside, in order.  [EventEmitter.emit] calls
    its observers synchronously, so an emission keeps the world those
    observers find when they read a field back. *)
Inductive Effect : Type :=
  | Emitted (em : Emitter) (ev : string) (params : Payload) (seen : World)
  | Sent (address : string) (args : list Arg).

Definition Trace := list Effect.

(** ** The monad of methods and handlers

    A computation reads and updates the world and appends to the trace; it
    either returns or raises, and in both cases the world and the trace
    reached so far are kept (JavaScript rolls nothing back). *)
Inductive Exn : Type :=
  | TypeError (msg : string)    (* raised by the JavaScript engine *)
  | UnhandledError              (* raised by Node's EventEmitter: [error], unheard *)
  | DanglingRef.                (* a reference naming no object: outside JavaScript *)

Inductive Res (A : Type) : Type :=
  | Ret (a : A) (w : World) (tr : Trace)
  | Throw (e : Exn) (w : World) (tr : Trace).
Arguments Ret {A} a w tr.
Arguments Throw {A} e w tr.

Definition M (A : Type) : Type := World -> Res A.

Definition ret {A} (a : A) : M A := fun w => Ret a w [].

Definition bind {A B} (m : M A) (k : A -> M B) : M B :=
  fun w =>
    match m w with
    | Ret a w1 t1 =>
        match k a w1 with
        | Ret b w2 t2 => Ret b w2 (t1 ++ t2)
        | Throw e w2 t2 => Throw e w2 (t1 ++ t2)
        end
    | Throw e w1 t1 => Throw e w1 t1
    end.

#[global] Instance M_ret : MRet M := @ret.
#[global] Instance M_bind : MBind M := fun A B k m => bind m k.

Definition throw {A} (e : Exn) : M A := fun w => Throw e w [].
Definition getWorld : M World := fun w => Ret w w [].
Definition modify (f : World -> World) : M unit := fun w => Ret tt (f w) [].

(** The world a computation leaves behind, and what it handed out. *)
Definition worldOf {A} (r : Res A) : World :=
  match r with Ret _ w _ => w | Throw _ w _ => w end.
Definition traceOf {A} (r : Res A) : Trace :=
  match r with Ret _ _ t => t | Throw _ _ t => t end.

(** [for each x in l: body x] *)
Fixpoint forEach {A} (l : list A) (body : A -> M unit) : M unit :=
  match l with
  | [] => ret tt
  | x :: l' => body x ;; forEach l' body
  end.

(** [_.range(n)] *)
Definition range (n : nat) : list nat := seq 0 n.

(** [a[i] = x] on an array.  Every such write in the library is at an index
    at most the length, so no hole is ever created. *)
Definition arraySet {A} (i : nat) (x : A) (l : list A) : list A :=
  if (i <? length l)%nat then <[i:=x]> l else l ++ [x].

(** [emitter.emit(ev, params)] on one of the event registries.  Who listens
    on a registry is the caller's business ([Song], [Track] and
    [Clip.prototype.on]) and is not part of the world: the emission is
    recorded, with the world a callback would read.  One name is treated
    apart by Node: [error], which raises when nothing listens on it.  No
    listener of the library emits under that name, and what is stated of an
    arbitrary name excludes it. *)
Definition emit (em : Emitter) (ev : string) (params : Payload) : M unit :=
  fun w => Ret tt w [Emitted em ev params w].

(** [bitwig.emitter.emit(address, ...args)] *)
Definition send (address : string) (args : list Arg) : M unit :=
  fun w => Ret tt w [Sent address args].

(** [bitwig.receiver.on(address, handler)] *)
Definition on (address : string) (l : Listener) : M unit :=
  modify (fun w => set_receiver (receiver w ++ [(address, l)]) w).

Definition getTrack (t : nat) : M Track.t :=
  fun w => match trackHeap w !! t with
           | Some x => Ret x w []
           | None => Throw DanglingRef w []
           end.

Definition getClip (c : nat) : M Clip.t :=
  fun w => match clipHeap w !! c with
           | Some x => Ret x w []
           | None => Throw DanglingRef w []
           end.

(** An assignment to a property of the Track [t] / the Clip [c] / the Song. *)
Definition modifyTrack (t : nat) (f : Track.t -> Track.t) : M unit :=
  x ← getTrack t;
  modify (fun w => set_trackHeap (<[t := f x]> (trackHeap w)) w).

Definition modifyClip (c : nat) (f : Clip.t -> Clip.t) : M unit :=
  x ← getClip c;
  modify (fun w => set_clipHeap (<[c := f x]> (clipHeap w)) w).

Definition modifySong (f : Song.t -> Song.t) : M unit :=
  modify (fun w => set_song (f (song w)) w).

(** ** lib/clip.js *)

(** [Clip.prototype.emitEvent] *)
Definition Clip_emitEvent (c : nat) (ev : string) (params : Payload) : M unit :=
  emit (ClipEmitter c) ev params ;;
  self ← getClip c;
  tr ← getTrack (Clip.track self);
  emit SongEmitter ("clip:" +:+ ev)
       (extend [("id", VNum (Clip.id self)); ("trackId", VNum (Track.id tr))] params).

(** The six listeners of a Clip, [indexListener] to [isQueuedListener]:
    emit [{value, prev: self.<field>}], then assign the field. *)
Definition Clip_listener (c : nat) (f : Clip.field) (x : value) : M unit :=
  self ← getClip c;
  Clip_emitEvent c (Clip.name f) [("value", x); ("prev", Clip.get f self)] ;;
  modifyClip c (Clip.set f x).

Definition Clip_indexListener (c : nat) := Clip_listener c Clip.index_.
Definition Clip_isSelectedListener (c : nat) := Clip_listener c Clip.isSelected_.
Definition Clip_hasContentListener (c : nat) := Clip_listener c Clip.hasContent_.
Definition Clip_isPlayingListener (c : nat) := Clip_listener c Clip.isPlaying_.
Definition Clip_isRecordingListener (c : nat) := Clip_listener c Clip.isRecording_.
Definition Clip_isQueuedListener (c : nat) := Clip_listener c Clip.isQueued_.

(** [new Clip(bitwig, track, id)]: returns the reference of the new object. *)
Definition Clip_new (track : nat) (id : Z) : M nat :=
  w ← getWorld;
  let self := length (clipHeap w) in
  modify (fun w => set_clipHeap
            (clipHeap w ++ [Clip.mk track id (VNum 0) (VBool false) (VBool false)
                                    (VBool false) (VBool false) (VBool false)]) w) ;;
  tr ← getTrack track;
  forEach Clip.fields (fun f =>
    on ("/track/" +:+ string_of_Z (Track.id tr) +:+ "/slot/" +:+ string_of_Z id
          +:+ "/" +:+ Clip.name f)
       (ClipL self f)) ;;
  ret self.

(** [Clip.prototype.launch] *)
Definition Clip_launch (c : nat) : M unit :=
  self ← getClip c;
  tr ← getTrack (Clip.track self);
  send ("/track/" +:+ string_of_Z (Track.id tr) +:+ "/clip/"
          +:+ string_of_Z (Clip.id self + 1) +:+ "/launch") [].

(** [clip.destroy()]: [Clip.prototype] carries [launch], [on] and
    [emitEvent] only, so the property is undefined and the call raises. *)
Definition Clip_destroy (c : nat) : M unit :=
  throw (TypeError "clip.destroy is not a function").

(** ** lib/track.js *)

(** [Track.prototype.emitEvent] *)
Definition Track_emitEvent (t : nat) (ev : string) (params : Payload) : M unit :=
  emit (TrackEmitter t) ev params ;;
  self ← getTrack t;
  emit SongEmitter ("track:" +:+ ev) (extend [("id", VNum (Track.id self))] params).

(** The listeners of the common shape, [soloListener] to [selectedListener]:
    emit [{value, prev: self.<field>}], then assign the field. *)
Definition Track_listener (t : nat) (f : Track.field) (x : value) : M unit :=
  self ← getTrack t;
  Track_emitEvent t (Track.evname f) [("value", x); ("prev", Track.get f self)] ;;
  modifyTrack t (Track.set f x).

Definition Track_soloListener (t : nat) := Track_listener t Track.solo_.
Definition Track_recarmListener (t : nat) := Track_listener t Track.recarm_.
Definition Track_muteListener (t : nat) := Track_listener t Track.mute_.
Definition Track_volumeListener (t : nat) := Track_listener t Track.volume_.
Definition Track_panListener (t : nat) := Track_listener t Track.pan_.
Definition Track_nameListener (t : nat) := Track_listener t Track.name_.
Definition Track_vuListener (t : nat) := Track_listener t Track.vu_.
Definition Track_selectedListener (t : nat) := Track_listener t Track.selected_.

(** [sendNameListener(i, name)] *)
Definition Track_sendNameListener (t : nat) (i : nat) (name : value) : M unit :=
  self ← getTrack t;
  Track_emitEvent t "sendName"
    [("num", VNum (Z.of_nat i)); ("value", name); ("prev", Track.name self)] ;;
  self ← getTrack t;
  match Track.sends self !! i with
  | None => throw (TypeError "Cannot set properties of undefined")
  | Some s =>
      modifyTrack t (fun x =>
        Track.set_sends (<[i := mkSend name (send_volume s)]> (Track.sends x)) x)
  end.

(** [sendVolumeListener(i, volume)] *)
Definition Track_sendVolumeListener (t : nat) (i : nat) (volume : value) : M unit :=
  self ← getTrack t;
  Track_emitEvent t "sendVolume"
    [("num", VNum (Z.of_nat i)); ("value", volume); ("prev", Track.volume self)] ;;
  self ← getTrack t;
  match Track.sends self !! i with
  | None => throw (TypeError "Cannot set properties of undefined")
  | Some s =>
      modifyTrack t (fun x =>
        Track.set_sends (<[i := mkSend (send_name s) volume]> (Track.sends x)) x)
  end.

(** [new Track(bitwig, id)]: returns the reference of the new object. *)
Definition Track_new (id : Z) : M nat :=
  w ← getWorld;
  let self := length (trackHeap w) in
  modify (fun w => set_trackHeap
            (trackHeap w ++ [Track.mk id [] [] (VNum 0) (VNum 0) (VBool false)
                                      (VNum 0) (VNum 0) (VNum 0) VUndef VUndef None]) w) ;;
  forEach Track.registered (fun f =>
    on ("/track/" +:+ string_of_Z id +:+ "/" +:+ Track.evname f) (TrackL self f)) ;;
  forEach (range 6) (fun i =>
    modifyTrack self (fun x =>
      Track.set_sends (arraySet i (mkSend (VStr "") (VNum 0)) (Track.sends x)) x) ;;
    on ("/track/" +:+ string_of_Z id +:+ "/send/" +:+ string_of_Z (Z.of_nat i) +:+ "/name")
       (SendNameL self i) ;;
    on ("/track/" +:+ string_of_Z id +:+ "/send/" +:+ string_of_Z (Z.of_nat i) +:+ "/volume")
       (SendVolumeL self i)) ;;
  forEach (range 8) (fun i =>
    c ← Clip_new self (Z.of_nat i);
    modifyTrack self (fun x => Track.set_clips (arraySet i c (Track.clips x)) x)) ;;
  ret self.

(** [Track.prototype.setName] and the other outbound methods of a Track. *)
Definition Track_setName (t : nat) (name : value) : M unit :=
  self ← getTrack t;
  send ("/track/" +:+ string_of_Z (Track.id self) +:+ "/name") [Typed "string" name].

Definition Track_setRecarm (t : nat) (recarm : value) : M unit :=
  self ← getTrack t;
  send ("/track/" +:+ string_of_Z (Track.id self) +:+ "/arm") [Typed "integer" recarm].

Definition Track_setSolo (t : nat) (solo : value) : M unit :=
  self ← getTrack t;
  send ("/track/" +:+ string_of_Z (Track.id self) +:+ "/solo") [Typed "integer" solo].

Definition Track_setMute (t : nat) (mute : value) : M unit :=
  self ← getTrack t;
  send ("/track/" +:+ string_of_Z (Track.id self) +:+ "/mute") [Typed "integer" mute].

Definition Track_setVolume (t : nat) (volume : value) : M unit :=
  self ← getTrack t;
  send ("/track/" +:+ string_of_Z (Track.id self) +:+ "/volume") [Typed "integer" volume].

Definition Track_setPan (t : nat) (pan : value) : M unit :=
  self ← getTrack t;
  send ("/track/" +:+ string_of_Z (Track.id self) +:+ "/pan") [Typed "float" pan].

Definition Track_setSendName (t : nat) (snd name : value) : M unit :=
  self ← getTrack t;
  send ("/track/" +:+ string_of_Z (Track.id self) +:+ "/send/" +:+ toString snd +:+ "/name")
       [Typed "string" name].

(** [Track.prototype.view] *)
Definition Track_view (t : nat) : M unit :=
  self ← getTrack t;
  send "/track/#/track/view" [Typed "integer" (VNum (Track.id self))].

(** [Track.prototype.setNumScenes] *)
Definition Track_setNumScenes (t : nat) (numScenes : Z) : M unit :=
  modifyTrack t (Track.set_numScenes (Some numScenes)).

(** The body of the [for] loop of [refreshClips], run for the indices
    [i, i+1, ...] while [i < this.numScenes]; [k] counts the iterations
    left. *)
Fixpoint refreshLoop (t : nat) (i : nat) (k : nat) : M unit :=
  match k with
  | O => ret tt
  | S k' =>
      c ← Clip_new t (Z.of_nat i);
      modifyTrack t (fun x => Track.set_clips (arraySet i c (Track.clips x)) x) ;;
      self ← getTrack t;
      send "/track/#/clip/info"
           [Typed "integer" (VNum (Track.id self)); Typed "integer" (VNum (Z.of_nat i))] ;;
      refreshLoop t (S i) k'
  end.

(** The number of times [i < this.numScenes] holds for [i = 0, 1, ...]:
    none when [numScenes] was never set. *)
Definition sceneCount (numScenes : option Z) : nat :=
  match numScenes with
  | None => O
  | Some n => Z.to_nat n
  end.

(** [Track.prototype.refreshClips] *)
Definition Track_refreshClips (t : nat) : M unit :=
  self ← getTrack t;
  forEach (Track.clips self) Clip_destroy ;;
  modifyTrack t (Track.set_clips []) ;;
  self ← getTrack t;
  refreshLoop t 0 (sceneCount (Track.numScenes self)).

(** ** lib/song.js *)

(** The nine listeners of the Song, [playListener] to [selectedListener]:
    emit [{value, prev: self.<field>}] on the Song's own registry, then
    assign the field. *)
Definition Song_listener (f : Song.field) (x : value) : M unit :=
  w ← getWorld;
  emit SongEmitter (Song.evname f) [("value", x); ("prev", Song.get f (song w))] ;;
  modifySong (Song.set f x).

Definition Song_playListener := Song_listener Song.playing_.
Definition Song_recordListener := Song_listener Song.recording_.
Definition Song_clickListener := Song_listener Song.click_.
Definition Song_soloListener := Song_listener Song.solo_.
Definition Song_muteListener := Song_listener Song.mute_.
Definition Song_recarmListener := Song_listener Song.recarm_.
Definition Song_volumeListener := Song_listener Song.volume_.
Definition Song_panListener := Song_listener Song.pan_.
Definition Song_selectedListener := Song_listener Song.selected_.

(** The handler of [/fxparam/(i+1)/name]: [self.fxparams[i].name = name]. *)
Definition Song_fxNameListener (i : nat) (name : value) : M unit :=
  w ← getWorld;
  match Song.fxparams (song w) !! i with
  | None => throw (TypeError "Cannot set properties of undefined")
  | Some p =>
      modifySong (fun s =>
        Song.set_fxparams (<[i := mkFxParam name (fx_value p)]> (Song.fxparams s)) s)
  end.

(** The handler of [/fxparam/(i+1)/value]: [self.fxparams[i].value = value]. *)
Definition Song_fxValueListener (i : nat) (x : value) : M unit :=
  w ← getWorld;
  match Song.fxparams (song w) !! i with
  | None => throw (TypeError "Cannot set properties of undefined")
  | Some p =>
      modifySong (fun s =>
        Song.set_fxparams (<[i := mkFxParam (fx_name p) x]> (Song.fxparams s)) s)
  end.

(** [new Song(bitwig)] *)
Definition Song_new : M unit :=
  modify (set_song (Song.mk [] [] (VNum 0) (VNum 0) (VNum 0) (VNum 0) (VNum 0) (VNum 0)
                            VUndef VUndef VUndef VUndef)) ;;
  forEach Song.fields (fun f => on (Song.address f) (SongL f)) ;;
  forEach (range 8) (fun i =>
    t ← Track_new (Z.of_nat i + 1);
    modifySong (fun s => Song.set_tracks (arraySet i t (Song.tracks s)) s) ;;
    modifySong (fun s =>
      Song.set_fxparams (arraySet i (mkFxParam (VStr "") (VNum 0)) (Song.fxparams s)) s) ;;
    on ("/fxparam/" +:+ string_of_Z (Z.of_nat i + 1) +:+ "/name") (FxNameL i) ;;
    on ("/fxparam/" +:+ string_of_Z (Z.of_nat i + 1) +:+ "/value") (FxValueL i)).

(** The outbound methods of the Song. *)
Definition Song_stop : M unit := send "/stop" [Bare (VNum 1)].
Definition Song_play : M unit := send "/play" [Bare (VNum 1)].
Definition Song_record : M unit := send "/record" [].
Definition Song_loop (forceOn : value) : M unit :=
  if truthy forceOn then send "/repeat" [Bare (VNum 1)] else send "/repeat" [].
Definition Song_setClick (state : value) : M unit :=
  if truthy state then send "/click" [Bare (VNum 1)] else send "/click" [].
Definition Song_launchScene (scene : value) : M unit :=
  send ("/scene/" +:+ toString scene +:+ "/launch") [].
Definition Song_setVolume (volume : value) : M unit :=
  send "/master/volume" [Typed "integer" volume].
Definition Song_setPan (pan : value) : M unit :=
  send "/master/pan" [Typed "integer" pan].
Definition Song_setTempo (tempo : value) : M unit :=
  send "/tempo/raw" [Typed "integer" tempo].
Definition Song_setTime (time : value) : M unit :=
  send "/time" [Typed "integer" time].
Definition Song_toggleFxBypass : M unit := send "/fx/bypass" [].
Definition Song_select : M unit := send "/master/select" [].

(** ** index.js *)

(** The instance before [this.song = new Song(this)]: nothing allocated and
    nothing subscribed. *)
Definition emptyWorld : World :=
  mkWorld (Song.mk [] [] VUndef VUndef VUndef VUndef VUndef VUndef VUndef VUndef VUndef VUndef)
          [] [] [].

(** [new OSC4Bitwig(opts)] *)
Definition OSC4Bitwig : World := Eval vm_compute in worldOf (Song_new emptyWorld).

(** ** Inbound dispatch

    The receiver is an event emitter keyed by address: a message is handed,
    with its positional arguments, to every handler registered on exactly
    that address, oldest first, and an exception in one of them ends the
    dispatch.  As a Node [EventEmitter] it treats one name apart: an event
    named [error] that no handler is registered on is raised as an
    exception. *)
Definition runListener (l : Listener) (args : list value) : M unit :=
  match l with
  | SongL f => Song_listener f (arg 0 args)
  | FxNameL i => Song_fxNameListener i (arg 0 args)
  | FxValueL i => Song_fxValueListener i (arg 0 args)
  | TrackL t f => Track_listener t f (arg 0 args)
  | SendNameL t i => Track_sendNameListener t i (arg 0 args)
  | SendVolumeL t i => Track_sendVolumeListener t i (arg 0 args)
  | ClipL c f => Clip_listener c f (arg 0 args)
  end.

Definition subscribers (address : string) (w : World) : list Listener :=
  map snd (filter (fun s => String.eqb (fst s) address = true) (receiver w)).

(** The event an [EventEmitter] raises instead of dropping. *)
Definition unhandledError (name : string) (handlers : list Listener) : bool :=
  String.eqb name "error" && match handlers with [] => true | _ :: _ => false end.

Definition deliver (address : string) (args : list value) : M unit :=
  w ← getWorld;
  if unhandledError address (subscribers address w) then throw UnhandledError
  else forEach (subscribers address w) (fun l => runListener l args).

(** ** Outbound commands and the operations of the library *)

Inductive Command : Type :=
  | SongStop | SongPlay | SongRecord
  | SongLoop (forceOn : value) | SongSetClick (state : value)
  | SongLaunchScene (scene : value)
  | SongSetVolume (volume : value) | SongSetPan (pan : value)
  | SongSetTempo (tempo : value) | SongSetTime (time : value)
  | SongToggleFxBypass | SongSelect
  | TrackSetName (t : nat) (name : value)
  | TrackSetRecarm (t : nat) (recarm : value)
  | TrackSetSolo (t : nat) (solo : value)
  | TrackSetMute (t : nat) (mute : value)
  | TrackSetVolume (t : nat) (volume : value)
  | TrackSetPan (t : nat) (pan : value)
  | TrackSetSendName (t : nat) (snd name : value)
  | TrackView (t : nat)
  | ClipLaunch (c : nat).

Definition runCommand (cmd : Command) : M unit :=
  match cmd with
  | SongStop => Song_stop
  | SongPlay => Song_play
  | SongRecord => Song_record
  | SongLoop forceOn => Song_loop forceOn
  | SongSetClick state => Song_setClick state
  | SongLaunchScene scene => Song_launchScene scene
  | SongSetVolume volume => Song_setVolume volume
  | SongSetPan pan => Song_setPan pan
  | SongSetTempo tempo => Song_setTempo tempo
  | SongSetTime time => Song_setTime time
  | SongToggleFxBypass => Song_toggleFxBypass
  | SongSelect => Song_select
  | TrackSetName t name => Track_setName t name
  | TrackSetRecarm t recarm => Track_setRecarm t recarm
  | TrackSetSolo t solo => Track_setSolo t solo
  | TrackSetMute t mute => Track_setMute t mute
  | TrackSetVolume t volume => Track_setVolume t volume
  | TrackSetPan t pan => Track_setPan t pan
  | TrackSetSendName t snd name => Track_setSendName t snd name
  | TrackView t => Track_view t
  | ClipLaunch c => Clip_launch c
  end.

(** The object a command is called on exists (and, for a Clip, so does the
    Track it points back to). *)
Definition trackLive (t : nat) (w : World) : Prop := is_Some (trackHeap w !! t).

Definition clipLive (c : nat) (w : World) : Prop :=
  match clipHeap w !! c with
  | Some cl => trackLive (Clip.track cl) w
  | None => False
  end.

Definition receiverLive (cmd : Command) (w : World) : Prop :=
  match cmd with
  | TrackSetName t _ | TrackSetRecarm t _ | TrackSetSolo t _ | TrackSetMute t _
  | TrackSetVolume t _ | TrackSetPan t _ | TrackSetSendName t _ _ | TrackView t =>
      trackLive t w
  | ClipLaunch c => clipLive c w
  | _ => True
  end.

(** Everything the application or the transport can make the library do. *)
Inductive Op : Type :=
  | OpDeliver (address : string) (args : list value)
  | OpCommand (cmd : Command)
  | OpSetNumScenes (t : nat) (numScenes : Z)
  | OpRefreshClips (t : nat).

Definition step (o : Op) : M unit :=
  match o with
  | OpDeliver address args => deliver address args
  | OpCommand cmd => runCommand cmd
  | OpSetNumScenes t n => Track_setNumScenes t n
  | OpRefreshClips t => Track_refreshClips t
  end.

(** The world after a sequence of operations, whether or not one of them
    raised on the way. *)
Fixpoint run (ops : list Op) (w : World) : World :=
  match ops with
  | [] => w
  | o :: ops' => run ops' (worldOf (step o w))
  end.

(** ** Vocabulary of the statements *)

(** *** Fields and change events *)

(** A mirrored field of an entity. *)
Inductive FieldRef : Type :=
  | SongField (f : Song.field)
  | TrackField (t : nat) (f : Track.field)
  | ClipField (c : nat) (f : Clip.field).

#[global] Instance FieldRef_eq_dec : EqDecision FieldRef.
Proof. solve_decision. Defined.

Definition listenerOf (r : FieldRef) : Listener :=
  match r with
  | SongField f => SongL f
  | TrackField t f => TrackL t f
  | ClipField c f => ClipL c f
  end.

Definition fieldLive (r : FieldRef) (w : World) : Prop :=
  match r with
  | SongField _ => True
  | TrackField t _ => trackLive t w
  | ClipField c _ => clipLive c w
  end.

Definition readField (r : FieldRef) (w : World) : value :=
  match r with
  | SongField f => Song.get f (song w)
  | TrackField t f => from_option (Track.get f) VUndef (trackHeap w !! t)
  | ClipField c f => from_option (Clip.get f) VUndef (clipHeap w !! c)
  end.

(** The world in which the field [r] holds [v] and nothing else differs. *)
Definition writeField (r : FieldRef) (v : value) (w : World) : World :=
  match r with
  | SongField f => set_song (Song.set f v (song w)) w
  | TrackField t f => set_trackHeap (alter (Track.set f v) t (trackHeap w)) w
  | ClipField c f => set_clipHeap (alter (Clip.set f v) c (clipHeap w)) w
  end.

Definition trackIdAt (t : nat) (w : World) : Z :=
  from_option Track.id 0 (trackHeap w !! t).
Definition clipIdAt (c : nat) (w : World) : Z :=
  from_option Clip.id 0 (clipHeap w !! c).
Definition clipTrackAt (c : nat) (w : World) : nat :=
  from_option Clip.track O (clipHeap w !! c).

(** The change event of a field, as the design describes it: [{value, prev}]
    on the entity's own registry and, for a Track or a Clip, the same object
    with the identifying keys in front on the Song's registry under
    [track:<name>] or [clip:<name>].  A field of the Song has the Song's
    registry for its own and is announced there once, under the bare name.
    The last component is the world the observers of the emission find. *)
Definition changeEvents (r : FieldRef) (v prev : value) (seen : World) : Trace :=
  match r with
  | SongField f =>
      [Emitted SongEmitter (Song.evname f) [("value", v); ("prev", prev)] seen]
  | TrackField t f =>
      [Emitted (TrackEmitter t) (Track.evname f) [("value", v); ("prev", prev)] seen;
       Emitted SongEmitter ("track:" +:+ Track.evname f)
               [("id", VNum (trackIdAt t seen)); ("value", v); ("prev", prev)] seen]
  | ClipField c f =>
      [Emitted (ClipEmitter c) (Clip.name f) [("value", v); ("prev", prev)] seen;
       Emitted SongEmitter ("clip:" +:+ Clip.name f)
               [("id", VNum (clipIdAt c seen));
                ("trackId", VNum (trackIdAt (clipTrackAt c seen) seen));
                ("value", v); ("prev", prev)] seen]
  end.

(** Reading an emission. *)
Definition eventValue (e : Effect) : value :=
  match e with Emitted _ _ p _ => payload_get "value" p | Sent _ _ => VUndef end.
Definition eventPrev (e : Effect) : value :=
  match e with Emitted _ _ p _ => payload_get "prev" p | Sent _ _ => VUndef end.
Definition eventName (e : Effect) : string :=
  match e with Emitted _ ev _ _ => ev | Sent a _ => a end.
Definition isEmitted (e : Effect) : bool :=
  match e with Emitted _ _ _ _ => true | Sent _ _ => false end.
Definition emittedOn (em : Emitter) (e : Effect) : bool :=
  match e with Emitted em' _ _ _ => bool_decide (em' = em) | Sent _ _ => false end.

(** What an observer of the emission [e] reads in the field [r]. *)
Definition observed (r : FieldRef) (e : Effect) : value :=
  match e with Emitted _ _ _ seen => readField r seen | Sent _ _ => VUndef end.

(** The inbound address of an entity field in the protocol's address space,
    for the ids found in [w]. *)
Definition wireAddress (r : FieldRef) (w : World) : string :=
  match r with
  | SongField f => Song.address f
  | TrackField t f =>
      "/track/" +:+ string_of_Z (trackIdAt t w) +:+ "/" +:+ Track.evname f
  | ClipField c f =>
      "/track/" +:+ string_of_Z (trackIdAt (clipTrackAt c w) w) +:+ "/slot/"
        +:+ string_of_Z (clipIdAt c w) +:+ "/" +:+ Clip.name f
  end.

#[global] Instance fieldLive_dec r w : Decision (fieldLive r w).
Proof.
  destruct r as [f | t f | c f]; simpl; unfold clipLive, trackLive.
  - apply _.
  - apply _.
  - destruct (clipHeap w !! c); apply _.
Defined.

(** *** Addresses and wiring *)

(** Every mirrored field that has a registered listener: the nine of the
    Song, seven per Track of [song.tracks], six per Clip of those Tracks. *)
Definition entityFields (w : World) : list FieldRef :=
  map SongField Song.fields
  ++ flat_map (fun t => map (TrackField t) Track.registered) (Song.tracks (song w))
  ++ flat_map (fun t =>
       flat_map (fun c => map (ClipField c) Clip.fields)
                (from_option Track.clips [] (trackHeap w !! t)))
       (Song.tracks (song w)).

(** An address that reaches the listener of [r] and no other handler. *)
Definition wired (a : string) (r : FieldRef) (w : World) : Prop :=
  subscribers a w = [listenerOf r] /\ fieldLive r w.

(** An event name of the form [<kind>:<name>]. *)
Definition hasNamespace (ev : string) : bool :=
  existsb (Ascii.eqb (Ascii.ascii_of_nat 58)) (String.list_ascii_of_string ev).

(** The registry and name of an emission. *)
Definition eventKey (e : Effect) : option Emitter * string :=
  match e with
  | Emitted em ev _ _ => (Some em, ev)
  | Sent a _ => (None, a)
  end.

(** *** Sub-objects *)

(** A field of a sub-object: [song.fxparams[i].name], [song.fxparams[i].value],
    [track.sends[i].name], [track.sends[i].volume]. *)
Inductive SubField : Type :=
  | FxName (i : nat)
  | FxValue (i : nat)
  | SendName (t i : nat)
  | SendVolume (t i : nat).

Definition subListener (s : SubField) : Listener :=
  match s with
  | FxName i => FxNameL i
  | FxValue i => FxValueL i
  | SendName t i => SendNameL t i
  | SendVolume t i => SendVolumeL t i
  end.

(** The sub-object exists. *)
Definition subLive (s : SubField) (w : World) : Prop :=
  match s with
  | FxName i | FxValue i => is_Some (Song.fxparams (song w) !! i)
  | SendName t i | SendVolume t i =>
      match trackHeap w !! t with
      | Some x => is_Some (Track.sends x !! i)
      | None => False
      end
  end.

(** The world in which the sub-field [s] holds [v] and nothing else differs. *)
Definition writeSub (s : SubField) (v : value) (w : World) : World :=
  match s with
  | FxName i =>
      set_song (Song.set_fxparams
                  (alter (fun p => mkFxParam v (fx_value p)) i (Song.fxparams (song w)))
                  (song w)) w
  | FxValue i =>
      set_song (Song.set_fxparams
                  (alter (fun p => mkFxParam (fx_name p) v) i (Song.fxparams (song w)))
                  (song w)) w
  | SendName t i =>
      set_trackHeap
        (alter (fun x => Track.set_sends
                           (alter (fun s => mkSend v (send_volume s)) i (Track.sends x)) x)
               t (trackHeap w)) w
  | SendVolume t i =>
      set_trackHeap
        (alter (fun x => Track.set_sends
                           (alter (fun s => mkSend (send_name s) v) i (Track.sends x)) x)
               t (trackHeap w)) w
  end.

(** The two emissions of a send listener: [{num, value, prev}] on the
    Track's registry, and the same with [id] in front on the Song's. *)
Definition sendEvents (ev : string) (t i : nat) (v prev : value) (seen : World) : Trace :=
  [Emitted (TrackEmitter t) ev
           [("num", VNum (Z.of_nat i)); ("value", v); ("prev", prev)] seen;
   Emitted SongEmitter ("track:" +:+ ev)
           [("id", VNum (trackIdAt t seen)); ("num", VNum (Z.of_nat i));
            ("value", v); ("prev", prev)] seen].

(** *** Clip refresh *)

(** What [new Clip(bitwig, track, i)] allocates, the six subscriptions it
    makes for the Clip [c] of a Track with id [tid], and the clip-info
    request that [refreshClips] sends after it. *)
Definition freshClip (t : nat) (i : nat) : Clip.t :=
  Clip.mk t (Z.of_nat i) (VNum 0) (VBool false) (VBool false) (VBool false) (VBool false)
          (VBool false).

Definition clipSubscriptions (tid : Z) (i : nat) (c : nat) : list (string * Listener) :=
  map (fun f => ("/track/" +:+ string_of_Z tid +:+ "/slot/" +:+ string_of_Z (Z.of_nat i)
                   +:+ "/" +:+ Clip.name f,
                 ClipL c f))
      Clip.fields.

Definition infoRequest (tid : Z) (i : nat) : Effect :=
  Sent "/track/#/clip/info" [Typed "integer" (VNum tid); Typed "integer" (VNum (Z.of_nat i))].

(** The world after [k] rounds of the loop of [refreshClips] started at the
    index [i] on the Track [t], found as [x] in [w]. *)
Definition afterLoop (t i k : nat) (x : Track.t) (w : World) : World :=
  mkWorld (song w)
          (<[t := Track.set_clips (Track.clips x ++ seq (length (clipHeap w)) k) x]>
             (trackHeap w))
          (clipHeap w ++ map (freshClip t) (seq i k))
          (receiver w
             ++ flat_map (fun p => clipSubscriptions (Track.id x) (fst p) (snd p))
                         (zip (seq i k) (seq (length (clipHeap w)) k))).

(** *** Invariants *)

(** A computation that, returning or raising, leaves a world related by [R]
    to the one it started from. *)
Definition keeps (R : World -> World -> Prop) {A} (m : M A) : Prop :=
  forall w, R w (worldOf (m w)).

Definition trackIds (w : World) : list Z := map Track.id (trackHeap w).
Definition clipIds (w : World) : list Z := map Clip.id (clipHeap w).

(** From [w] to [w']: the Tracks are the same objects with the same ids, and
    every Clip of [w] is still there with the same id (Clips constructed
    since come after). *)
Definition idsKept (w w' : World) : Prop :=
  trackIds w' = trackIds w /\ clipIds w `prefix_of` clipIds w'.

(** What no handler with a subscription ever touches: the subscriptions,
    [song.tracks], the number of device parameters, and per object its id,
    its references, the number of its sends and, for a Track, its [name]. *)
Definition trackShape (x : Track.t) : Z * list nat * nat * value :=
  (Track.id x, Track.clips x, length (Track.sends x), Track.name x).
Definition clipShape (c : Clip.t) : nat * Z := (Clip.track c, Clip.id c).
Definition shape (w : World)
  : list (string * Listener) * list nat * nat
    * list (Z * list nat * nat * value) * list (nat * Z) :=
  (receiver w, Song.tracks (song w), length (Song.fxparams (song w)),
   map trackShape (trackHeap w), map clipShape (clipHeap w)).

Definition shapeKept (w w' : World) : Prop := shape w' = shape w.

(** The worlds the library can be in: those shaped as construction left
    them. *)
Definition Inv (w : World) : Prop := shape w = shape OSC4Bitwig.

(** A handler other than the unregistered [nameListener]. *)
Definition registeredListener (l : Listener) : bool :=
  match l with
  | TrackL _ Track.name_ => false
  | _ => true
  end.

(** A world the operations can lead to from a freshly constructed instance. *)
Definition reachable (w : World) : Prop := exists ops, w = run ops OSC4Bitwig.

(** What construction leaves at the Track [t]: clips in its collection, no
    name, and no handler on its name address. *)
Definition freshTrack (t : nat) : bool :=
  match trackHeap OSC4Bitwig !! t with
  | Some x =>
      bool_decide (Track.clips x <> [])
      && bool_decide (Track.name x = VUndef)
      && bool_decide (subscribers ("/track/" +:+ string_of_Z (Track.id x) +:+ "/name")
                                  OSC4Bitwig = [])
  | None => false
  end.

(** *** What no operation undoes *)

(** What is fixed in a Track for good: its id and the number of its sends. *)
Definition trackFixed (x : Track.t) : Z * nat := (Track.id x, length (Track.sends x)).

(** From [w] to [w']: every subscription of [w] is still there, in place
    (later ones come after); [song.selectedTrack], [song.tracks] and the
    number of device parameters are the same; the Tracks are the same
    objects with the same ids and as many sends; every Clip of [w] is still
    there with the same owner and id. *)
Definition grows (w w' : World) : Prop :=
  receiver w `prefix_of` receiver w'
  /\ Song.selectedTrack (song w') = Song.selectedTrack (song w)
  /\ Song.tracks (song w') = Song.tracks (song w)
  /\ length (Song.fxparams (song w')) = length (Song.fxparams (song w))
  /\ map trackFixed (trackHeap w') = map trackFixed (trackHeap w)
  /\ map clipShape (clipHeap w) `prefix_of` map clipShape (clipHeap w').

(** The object (and slot) a handler assigns to exists. *)
Definition listenerLive (l : Listener) (w : World) : Prop :=
  match l with
  | SongL _ => True
  | FxNameL i | FxValueL i => is_Some (Song.fxparams (song w) !! i)
  | TrackL t _ => trackLive t w
  | SendNameL t i | SendVolumeL t i =>
      match trackHeap w !! t with
      | Some x => is_Some (Track.sends x !! i)
      | None => False
      end
  | ClipL c _ => clipLive c w
  end.

#[global] Instance listenerLive_dec l w : Decision (listenerLive l w).
Proof.
  destruct l as [f | i | i | t f | t i | t i | c f]; simpl; unfold clipLive, trackLive.
  1-4: apply _.
  1-2: destruct (trackHeap w !! t); apply _.
  destruct (clipHeap w !! c); apply _.
Defined.

(** What construction leaves under the Track [t] of [song.tracks]: the id
    [t + 1], six sends, and eight Clips of which the [j]-th has the id [j]
    and points back to [t]. *)
Definition freshTree (t : nat) : bool :=
  match trackHeap OSC4Bitwig !! t with
  | Some x =>
      bool_decide (Track.id x = Z.of_nat t + 1)
      && bool_decide (length (Track.sends x) = 6%nat)
      && bool_decide (length (Track.clips x) = 8%nat)
      && forallb (fun jc =>
                    bool_decide ((clipShape <$> clipHeap OSC4Bitwig !! snd jc)
                                 = Some (t, Z.of_nat (fst jc))))
                 (combine (seq 0 (length (Track.clips x))) (Track.clips x))
  | None => false
  end.

(** *** The inbound address table *)

(** The addresses of the protocol, for the Track at index [t] of
    [song.tracks] (on the wire: [t + 1]), the send [i], the slot [j] and the
    device parameter at index [i] (on the wire: [i + 1]). *)
Definition trackAddress (t : nat) (leaf : string) : string :=
  "/track/" +:+ string_of_Z (Z.of_nat t + 1) +:+ "/" +:+ leaf.
Definition sendAddress (t i : nat) (leaf : string) : string :=
  "/track/" +:+ string_of_Z (Z.of_nat t + 1) +:+ "/send/" +:+ string_of_Z (Z.of_nat i)
    +:+ "/" +:+ leaf.
Definition slotAddress (t j : nat) (leaf : string) : string :=
  "/track/" +:+ string_of_Z (Z.of_nat t + 1) +:+ "/slot/" +:+ string_of_Z (Z.of_nat j)
    +:+ "/" +:+ leaf.
Definition fxAddress (i : nat) (leaf : string) : string :=
  "/fxparam/" +:+ string_of_Z (Z.of_nat i + 1) +:+ "/" +:+ leaf.

(** The Clip at index [j] of the collection of the Track [t]. *)
Definition clipAt (t j : nat) (w : World) : option nat :=
  x ← trackHeap w !! t; Track.clips x !! j.

(** What construction subscribes for the Track [t]: one handler on each of
    its seven field addresses, its twelve send addresses and the forty-eight
    addresses of its slots, each the handler of the object at that index. *)
Definition freshTrackWiring (t : nat) : bool :=
  forallb (fun f => bool_decide (subscribers (trackAddress t (Track.evname f)) OSC4Bitwig
                                 = [TrackL t f]))
          Track.registered
  && forallb (fun i =>
                bool_decide (subscribers (sendAddress t i "name") OSC4Bitwig
                             = [SendNameL t i])
                && bool_decide (subscribers (sendAddress t i "volume") OSC4Bitwig
                                = [SendVolumeL t i]))
             (seq 0 6)
  && forallb (fun j =>
                match clipAt t j OSC4Bitwig with
                | Some c =>
                    forallb (fun f =>
                               bool_decide (subscribers (slotAddress t j (Clip.name f))
                                                        OSC4Bitwig = [ClipL c f]))
                            Clip.fields
                | None => false
                end)
             (seq 0 8).

Definition freshFxWiring (i : nat) : bool :=
  bool_decide (subscribers (fxAddress i "name") OSC4Bitwig = [FxNameL i])
  && bool_decide (subscribers (fxAddress i "value") OSC4Bitwig = [FxValueL i]).

(** What a sub-field holds. *)
Definition readSub (s : SubField) (w : World) : value :=
  match s with
  | FxName i => from_option fx_name VUndef (Song.fxparams (song w) !! i)
  | FxValue i => from_option fx_value VUndef (Song.fxparams (song w) !! i)
  | SendName t i =>
      from_option (fun x => from_option send_name VUndef (Track.sends x !! i)) VUndef
                  (trackHeap w !! t)
  | SendVolume t i =>
      from_option (fun x => from_option send_volume VUndef (Track.sends x !! i)) VUndef
                  (trackHeap w !! t)
  end.

(** *** Commands and their echo *)

(** The handlers that run if the host sends the message of a command back
    on the address it was sent to; [None] if the command does not hand out
    exactly one message. *)
Definition echoed (cmd : Command) (w : World) : option (list Listener) :=
  match runCommand cmd w with
  | Ret _ _ [Sent a _] => Some (subscribers a w)
  | _ => None
  end.


(** *** Sequences of messages *)

(** The messages [vs], in order, on one address. *)
Definition deliverAll (a : string) (vs : list value) : M unit :=
  forEach vs (fun v => deliver a [v]).

(** The [value] and [prev] of the emissions made on the Song's registry. *)
Definition songEvents (tr : list Effect) : list (value * value) :=
  map (fun e => (eventValue e, eventPrev e))
      (filter (fun e => emittedOn SongEmitter e = true) tr).

(** *** Event objects *)


(** *** Who may change a field *)

(** The entity field a handler assigns, if it assigns one. *)
Definition fieldOfListener (l : Listener) : option FieldRef :=
  match l with
  | SongL f => Some (SongField f)
  | TrackL t f => Some (TrackField t f)
  | ClipL c f => Some (ClipField c f)
  | FxNameL _ | FxValueL _ | SendNameL _ _ | SendVolumeL _ _ => None
  end.

(** The field is one construction registered a listener for: a field of
    the Song's list, a registered field of a Track of [song.tracks], or a
    field of a Clip of such a Track's collection. *)
Definition registeredField (r : FieldRef) (w : World) : bool :=
  match r with
  | SongField f => bool_decide (f ∈ Song.fields)
  | TrackField t f =>
      bool_decide (t ∈ Song.tracks (song w)) && bool_decide (f ∈ Track.registered)
  | ClipField c f =>
      existsb (fun t => bool_decide (c ∈ from_option Track.clips [] (trackHeap w !! t)))
              (Song.tracks (song w))
      && bool_decide (f ∈ Clip.fields)
  end.

(** A subscription of construction sits on the address of the field its
    handler assigns. *)
Definition onItsAddress (s : string * Listener) : bool :=
  match fieldOfListener (snd s) with
  | Some r =>
      String.eqb (fst s) (wireAddress r OSC4Bitwig) && registeredField r OSC4Bitwig
  | None => true
  end.

(** No address occurs twice in the list. *)
Fixpoint distinct (l : list string) : bool :=
  match l with
  | [] => true
  | a :: l' => negb (existsb (String.eqb a) l') && distinct l'
  end.

(** * Properties *)

(** ** Reasoning about the monad *)

Lemma bind_Ret {A B} (m : M A) (k : A -> M B) w a w1 t1 :
  m w = Ret a w1 t1 ->
  (m ≫= k) w = match k a w1 with
               | Ret b w2 t2 => Ret b w2 (t1 ++ t2)
               | Throw e w2 t2 => Throw e w2 (t1 ++ t2)
               end.
Proof. intros H. unfold mbind, M_bind, bind. now rewrite H. Qed.

Lemma bind_silent {A B} (m : M A) (k : A -> M B) w a w1 :
  m w = Ret a w1 [] -> (m ≫= k) w = k a w1.
Proof. intros H. rewrite (bind_Ret _ _ _ _ _ _ H). now destruct (k a w1). Qed.

Lemma getTrack_Some t w x : trackHeap w !! t = Some x -> getTrack t w = Ret x w [].
Proof. intros H. unfold getTrack. now rewrite H. Qed.

Lemma getClip_Some c w x : clipHeap w !! c = Some x -> getClip c w = Ret x w [].
Proof. intros H. unfold getClip. now rewrite H. Qed.

Lemma modifyTrack_Some t f w x :
  trackHeap w !! t = Some x ->
  modifyTrack t f w = Ret tt (set_trackHeap (<[t := f x]> (trackHeap w)) w) [].
Proof.
  intros H. unfold modifyTrack.
  now rewrite (bind_silent _ _ _ _ _ (getTrack_Some _ _ _ H)).
Qed.

Lemma modifyClip_Some c f w x :
  clipHeap w !! c = Some x ->
  modifyClip c f w = Ret tt (set_clipHeap (<[c := f x]> (clipHeap w)) w) [].
Proof.
  intros H. unfold modifyClip.
  now rewrite (bind_silent _ _ _ _ _ (getClip_Some _ _ _ H)).
Qed.

Lemma alter_at {A} (f : A -> A) (l : list A) i x :
  l !! i = Some x -> alter f i l = <[i := f x]> l.
Proof.
  revert i. induction l as [|y l IH]; intros [|i] H; simpl in *; try discriminate.
  - now inversion H.
  - f_equal. now apply IH.
Qed.

(** What a listener of the common shape does, in one equation. *)
Lemma listener_spec r args w :
  fieldLive r w ->
  runListener (listenerOf r) args w
  = Ret tt (writeField r (arg 0 args) w)
        (changeEvents r (arg 0 args) (readField r w) w).
Proof.
  destruct r as [f | t f | c f]; simpl; intros Hlive.
  - reflexivity.
  - destruct Hlive as [x Hx].
    unfold Track_listener, Track_emitEvent.
    rewrite (bind_silent _ _ _ _ _ (getTrack_Some _ _ _ Hx)).
    unfold mbind at 1, M_bind, bind at 1.
    unfold mbind at 1, bind at 1, emit at 1.
    rewrite (bind_silent _ _ _ _ _ (getTrack_Some _ _ _ Hx)).
    unfold emit. rewrite (modifyTrack_Some _ _ _ _ Hx).
    unfold trackIdAt. rewrite Hx, (alter_at _ _ _ _ Hx). reflexivity.
  - unfold clipLive in Hlive.
    destruct (clipHeap w !! c) as [cl|] eqn:Hc; [|contradiction].
    destruct Hlive as [tr Ht].
    unfold Clip_listener, Clip_emitEvent.
    rewrite (bind_silent _ _ _ _ _ (getClip_Some _ _ _ Hc)).
    unfold mbind at 1, M_bind, bind at 1.
    unfold mbind at 1, bind at 1, emit at 1.
    rewrite (bind_silent _ _ _ _ _ (getClip_Some _ _ _ Hc)).
    rewrite (bind_silent _ _ _ _ _ (getTrack_Some _ _ _ Ht)).
    unfold emit. rewrite (modifyClip_Some _ _ _ _ Hc).
    unfold trackIdAt, clipIdAt, clipTrackAt. rewrite Hc. simpl. rewrite Ht.
    rewrite (alter_at _ _ _ _ Hc). reflexivity.
Qed.

Lemma forEach_single {A} (x : A) (body : A -> M unit) w : forEach [x] body w = body x w.
Proof.
  simpl. unfold mbind, M_bind, bind, ret.
  destruct (body x w) as [[] w1 t1 | e w1 t1]; now rewrite ?app_nil_r.
Qed.

(** A message on an address with a single handler runs that handler. *)
Lemma deliver_single a l args w :
  subscribers a w = [l] -> deliver a args w = runListener l args w.
Proof.
  intros H. unfold deliver.
  rewrite (bind_silent getWorld _ w w w eq_refl), H.
  unfold unhandledError. rewrite andb_false_r.
  exact (forEach_single l (fun l => runListener l args) w).
Qed.

(** A message on an address nobody subscribed to is dropped, unless the
    address is [error]. *)
Lemma deliver_unsubscribed a args w :
  subscribers a w = [] -> a <> "error" -> deliver a args w = Ret tt w [].
Proof.
  intros H Ha. unfold deliver.
  rewrite (bind_silent getWorld _ w w w eq_refl), H.
  unfold unhandledError. apply String.eqb_neq in Ha. now rewrite Ha.
Qed.

Lemma deliver_unheard_error args w :
  subscribers "error" w = [] -> deliver "error" args w = Throw UnhandledError w [].
Proof.
  intros H. unfold deliver.
  now rewrite (bind_silent getWorld _ w w w eq_refl), H.
Qed.

(** Dropped or raised, it changes nothing. *)
Lemma deliver_unsubscribed_world a args w :
  subscribers a w = [] -> worldOf (deliver a args w) = w.
Proof.
  intros H. unfold deliver.
  rewrite (bind_silent getWorld _ w w w eq_refl), H.
  now destruct (unhandledError a []).
Qed.

(** The constructor returns, announces nothing and sends nothing. *)
Lemma OSC4Bitwig_constructed : Song_new emptyWorld = Ret tt OSC4Bitwig [].
Proof. vm_compute. reflexivity. Qed.

(** ** Reading and writing mirrored fields *)

Lemma Song_get_set f v s : Song.get f (Song.set f v s) = v.
Proof. now destruct f. Qed.
Lemma Song_get_set_ne f g v s : f <> g -> Song.get g (Song.set f v s) = Song.get g s.
Proof. destruct f, g; intros H; try reflexivity; now destruct H. Qed.
Lemma Track_get_set f v x : Track.get f (Track.set f v x) = v.
Proof. now destruct f. Qed.
Lemma Track_get_set_ne f g v x : f <> g -> Track.get g (Track.set f v x) = Track.get g x.
Proof. destruct f, g; intros H; try reflexivity; now destruct H. Qed.
Lemma Clip_get_set f v c : Clip.get f (Clip.set f v c) = v.
Proof. now destruct f. Qed.
Lemma Clip_get_set_ne f g v c : f <> g -> Clip.get g (Clip.set f v c) = Clip.get g c.
Proof. destruct f, g; intros H; try reflexivity; now destruct H. Qed.

Lemma Track_set_frame f v x :
  Track.id (Track.set f v x) = Track.id x
  /\ Track.clips (Track.set f v x) = Track.clips x
  /\ Track.sends (Track.set f v x) = Track.sends x
  /\ Track.numScenes (Track.set f v x) = Track.numScenes x.
Proof. now destruct f. Qed.

Lemma Clip_set_frame f v c :
  Clip.id (Clip.set f v c) = Clip.id c /\ Clip.track (Clip.set f v c) = Clip.track c.
Proof. now destruct f. Qed.

Lemma Song_set_frame f v s :
  Song.tracks (Song.set f v s) = Song.tracks s
  /\ Song.fxparams (Song.set f v s) = Song.fxparams s
  /\ Song.selectedTrack (Song.set f v s) = Song.selectedTrack s.
Proof. now destruct f. Qed.

(** [writeField r v] makes [r] read [v] ... *)
Lemma readField_writeField r v w :
  fieldLive r w -> readField r (writeField r v w) = v.
Proof.
  destruct r as [f | t f | c f]; simpl.
  - intros _. apply Song_get_set.
  - intros [x Hx]. rewrite list_lookup_alter_eq, Hx. simpl. apply Track_get_set.
  - unfold clipLive. destruct (clipHeap w !! c) as [cl|] eqn:Hc; [|contradiction].
    intros _. rewrite list_lookup_alter_eq, Hc. simpl. apply Clip_get_set.
Qed.

(** ... and leaves every other field of every entity as it was. *)
Lemma readField_writeField_ne r r' v w :
  r <> r' -> readField r' (writeField r v w) = readField r' w.
Proof.
  intros Hne.
  destruct r as [f | t f | c f], r' as [g | u g | d g]; simpl; try reflexivity.
  - apply Song_get_set_ne. congruence.
  - destruct (decide (t = u)) as [->|Htu].
    + rewrite list_lookup_alter_eq. destruct (trackHeap w !! u); simpl; [|reflexivity].
      apply Track_get_set_ne. congruence.
    + now rewrite list_lookup_alter_ne.
  - destruct (decide (c = d)) as [->|Hcd].
    + rewrite list_lookup_alter_eq. destruct (clipHeap w !! d); simpl; [|reflexivity].
      apply Clip_get_set_ne. congruence.
    + now rewrite list_lookup_alter_ne.
Qed.

(** Writing a mirrored field touches neither the subscriptions nor the
    identity, ownership and sub-objects of any entity. *)
Lemma writeField_frame r v w :
  receiver (writeField r v w) = receiver w
  /\ Song.tracks (song (writeField r v w)) = Song.tracks (song w)
  /\ Song.fxparams (song (writeField r v w)) = Song.fxparams (song w)
  /\ map Track.id (trackHeap (writeField r v w)) = map Track.id (trackHeap w)
  /\ map Track.clips (trackHeap (writeField r v w)) = map Track.clips (trackHeap w)
  /\ map Track.sends (trackHeap (writeField r v w)) = map Track.sends (trackHeap w)
  /\ map Clip.id (clipHeap (writeField r v w)) = map Clip.id (clipHeap w)
  /\ map Clip.track (clipHeap (writeField r v w)) = map Clip.track (clipHeap w).
Proof.
  destruct r as [f | t f | c f]; simpl.
  - destruct (Song_set_frame f v (song w)) as (-> & -> & _). repeat split.
  - repeat split; try reflexivity.
    all: apply list_eq; intros i; rewrite !list_lookup_fmap.
    all: destruct (decide (t = i)) as [->|Hne];
      [rewrite list_lookup_alter_eq | now rewrite list_lookup_alter_ne].
    all: destruct (trackHeap w !! i) as [x|]; simpl; [|reflexivity].
    all: destruct (Track_set_frame f v x) as (? & ? & ? & ?); congruence.
  - repeat split; try reflexivity.
    all: apply list_eq; intros i; rewrite !list_lookup_fmap.
    all: destruct (decide (c = i)) as [->|Hne];
      [rewrite list_lookup_alter_eq | now rewrite list_lookup_alter_ne].
    all: destruct (clipHeap w !! i) as [x|]; simpl; [|reflexivity].
    all: destruct (Clip_set_frame f v x) as (? & ?); congruence.
Qed.

Lemma writeField_live r r' v w : fieldLive r' w -> fieldLive r' (writeField r v w).
Proof.
  destruct (writeField_frame r v w) as (_ & _ & _ & Hti & _ & _ & Hci & Hct).
  assert (Ht : forall t, trackLive t w -> trackLive t (writeField r v w)).
  { intros t [x Hx]. unfold trackLive.
    assert (H : map Track.id (trackHeap (writeField r v w)) !! t = Some (Track.id x))
      by (rewrite Hti, list_lookup_fmap, Hx; reflexivity).
    rewrite list_lookup_fmap in H.
    destruct (trackHeap (writeField r v w) !! t); [eauto | discriminate]. }
  destruct r' as [g | u g | d g]; simpl; [trivial | apply Ht |].
  unfold clipLive. intros H.
  destruct (clipHeap w !! d) as [cl|] eqn:Hd; [|contradiction].
  assert (H' : map Clip.track (clipHeap (writeField r v w)) !! d = Some (Clip.track cl))
    by (rewrite Hct, list_lookup_fmap, Hd; reflexivity).
  rewrite list_lookup_fmap in H'.
  destruct (clipHeap (writeField r v w) !! d) as [cl'|]; [|discriminate].
  simpl in H'. injection H' as ->. now apply Ht.
Qed.

Lemma subscribers_writeField a r v w :
  subscribers a (writeField r v w) = subscribers a w.
Proof.
  unfold subscribers. now destruct (writeField_frame r v w) as (-> & _).
Qed.

(** ** The freshly constructed instance *)

(** After construction each of the 449 entity fields is reached, alone, at
    its address of the protocol table. *)
Lemma fresh_wiring :
  Forall (fun r => wired (wireAddress r OSC4Bitwig) r OSC4Bitwig) (entityFields OSC4Bitwig).
Proof. apply (bool_decide_unpack _). vm_compute. exact I. Qed.

Lemma fresh_entityFields_length : length (entityFields OSC4Bitwig) = 449%nat.
Proof. reflexivity. Qed.

Lemma deliver_entity_field a r args w :
  wired a r w ->
  deliver a args w
  = Ret tt (writeField r (arg 0 args) w) (changeEvents r (arg 0 args) (readField r w) w).
Proof.
  intros [Hsub Hlive]. rewrite (deliver_single _ _ _ _ Hsub). now apply listener_spec.
Qed.

Lemma changeEvents_Forall (P : Effect -> Prop) r v p seen :
  (forall em ev params,
      payload_get "value" params = v -> payload_get "prev" params = p ->
      P (Emitted em ev params seen)) ->
  Forall P (changeEvents r v p seen).
Proof.
  intros H. destruct r as [f | t f | c f]; simpl; repeat constructor; now apply H.
Qed.

(** ** Outbound commands *)

Lemma track_command {B} (t : nat) (k : Track.t -> M B) w x :
  trackHeap w !! t = Some x -> (getTrack t ≫= k) w = k x w.
Proof. intros H. apply bind_silent. now apply getTrack_Some. Qed.

(** ** Sends and device parameters *)

Lemma fx_listener_spec i v w p :
  Song.fxparams (song w) !! i = Some p ->
  Song_fxNameListener i v w = Ret tt (writeSub (FxName i) v w) []
  /\ Song_fxValueListener i v w = Ret tt (writeSub (FxValue i) v w) [].
Proof.
  intros Hp. unfold Song_fxNameListener, Song_fxValueListener.
  rewrite !(bind_silent getWorld _ w w w eq_refl), Hp. simpl.
  unfold modifySong, modify. now rewrite !(alter_at _ _ _ _ Hp).
Qed.

(** The emissions of [sendNameListener] do not depend on the send slot. *)
Lemma sendName_trace t i v w x :
  trackHeap w !! t = Some x ->
  traceOf (Track_sendNameListener t i v w) = sendEvents "sendName" t i v (Track.name x) w.
Proof.
  intros Hx. unfold Track_sendNameListener, Track_emitEvent.
  rewrite (track_command _ _ _ _ Hx).
  unfold mbind at 1, M_bind, bind at 1.
  unfold mbind at 1, bind at 1, emit at 1.
  rewrite (track_command _ _ _ _ Hx). unfold emit.
  rewrite (track_command _ _ _ _ Hx).
  unfold sendEvents, trackIdAt. rewrite Hx.
  destruct (Track.sends x !! i) as [s|]; [|reflexivity].
  now rewrite (modifyTrack_Some _ _ _ _ Hx).
Qed.

Lemma sendVolume_trace t i v w x :
  trackHeap w !! t = Some x ->
  traceOf (Track_sendVolumeListener t i v w)
  = sendEvents "sendVolume" t i v (Track.volume x) w.
Proof.
  intros Hx. unfold Track_sendVolumeListener, Track_emitEvent.
  rewrite (track_command _ _ _ _ Hx).
  unfold mbind at 1, M_bind, bind at 1.
  unfold mbind at 1, bind at 1, emit at 1.
  rewrite (track_command _ _ _ _ Hx). unfold emit.
  rewrite (track_command _ _ _ _ Hx).
  unfold sendEvents, trackIdAt. rewrite Hx.
  destruct (Track.sends x !! i) as [s|]; [|reflexivity].
  now rewrite (modifyTrack_Some _ _ _ _ Hx).
Qed.

Lemma send_listener_returns t i v w x s :
  trackHeap w !! t = Some x -> Track.sends x !! i = Some s ->
  (exists tr, Track_sendNameListener t i v w = Ret tt (writeSub (SendName t i) v w) tr)
  /\ (exists tr, Track_sendVolumeListener t i v w = Ret tt (writeSub (SendVolume t i) v w) tr).
Proof.
  intros Hx Hs. unfold Track_sendNameListener, Track_sendVolumeListener, Track_emitEvent.
  rewrite !(track_command _ _ _ _ Hx).
  split.
  all: unfold mbind at 1, M_bind, bind at 1.
  all: unfold mbind at 1, bind at 1, emit at 1.
  all: rewrite (track_command _ _ _ _ Hx); unfold emit.
  all: rewrite (track_command _ _ _ _ Hx), Hs, (modifyTrack_Some _ _ _ _ Hx).
  all: eexists; simpl; rewrite (alter_at _ _ _ _ Hx), (alter_at _ _ _ _ Hs); reflexivity.
Qed.

(** ** Clip refresh *)

(** With a clip in the collection, [refreshClips] raises on the first
    [clip.destroy()], before anything is changed or sent. *)
Lemma refreshClips_raises t w x :
  trackHeap w !! t = Some x -> Track.clips x <> [] ->
  Track_refreshClips t w = Throw (TypeError "clip.destroy is not a function") w [].
Proof.
  intros Hx Hne. unfold Track_refreshClips.
  rewrite (track_command _ _ _ _ Hx).
  destruct (Track.clips x) as [|c cs]; [now destruct Hne|].
  reflexivity.
Qed.

Lemma Clip_new_spec t i w x :
  trackHeap w !! t = Some x ->
  Clip_new t (Z.of_nat i) w
  = Ret (length (clipHeap w))
        (mkWorld (song w) (trackHeap w) (clipHeap w ++ [freshClip t i])
                 (receiver w ++ clipSubscriptions (Track.id x) i (length (clipHeap w))))
        [].
Proof.
  intros Hx. unfold Clip_new.
  rewrite (bind_silent getWorld _ w w w eq_refl).
  cbv zeta.
  rewrite (bind_silent (modify _) _ w tt _ eq_refl).
  rewrite (track_command t _ (set_clipHeap _ w) x Hx).
  unfold forEach, Clip.fields, on, modify, mbind, M_bind, bind, ret, set_receiver,
    clipSubscriptions, freshClip; simpl.
  now rewrite <- !app_assoc.
Qed.

(** Past the teardown, the loop of [refreshClips] does what it is meant to:
    [k] rounds from the index [i = this.clips.length] construct [k] Clips
    with the constructor's defaults and ids [i .. i+k-1], subscribe each at
    the Track's id, append them to the collection, and send one clip-info
    request per index, in order. *)
Lemma refreshLoop_spec t k : forall i w x,
  trackHeap w !! t = Some x -> length (Track.clips x) = i ->
  refreshLoop t i k w
  = Ret tt (afterLoop t i k x w) (map (infoRequest (Track.id x)) (seq i k)).
Proof.
  induction k as [|k IH]; intros i w x Hx Hlen.
  - simpl. unfold ret, afterLoop. simpl. rewrite !app_nil_r, list_insert_id.
    + now destruct w.
    + rewrite Hx. now destruct x.
  - simpl refreshLoop.
    rewrite (bind_silent _ _ _ _ _ (Clip_new_spec t i w x Hx)).
    set (w1 := mkWorld _ _ _ _).
    assert (Hx1 : trackHeap w1 !! t = Some x) by exact Hx.
    rewrite (bind_silent _ _ _ _ _ (modifyTrack_Some _ _ _ _ Hx1)).
    set (x2 := Track.set_clips _ x).
    set (w2 := set_trackHeap _ w1).
    assert (Hx2 : trackHeap w2 !! t = Some x2).
    { apply list_lookup_insert_eq. now apply lookup_lt_Some in Hx. }
    rewrite (track_command _ _ _ _ Hx2).
    unfold mbind, M_bind, bind, send.
    assert (Hlen2 : length (Track.clips x2) = S i).
    { subst x2. simpl. unfold arraySet. rewrite Hlen, Nat.ltb_irrefl, length_app. simpl. lia. }
    rewrite (IH (S i) w2 x2 Hx2 Hlen2). simpl. f_equal.
    unfold afterLoop, w2, w1, x2, arraySet. rewrite Hlen, Nat.ltb_irrefl. simpl.
    rewrite list_insert_insert_eq, length_app, Nat.add_1_r, <- !app_assoc. reflexivity.
Qed.

(** [refreshClips] on a Track whose collection is empty. *)
Lemma refreshClips_on_empty_collection t w x :
  trackHeap w !! t = Some x -> Track.clips x = [] ->
  Track_refreshClips t w
  = Ret tt (afterLoop t 0 (sceneCount (Track.numScenes x)) x w)
        (map (infoRequest (Track.id x)) (seq 0 (sceneCount (Track.numScenes x)))).
Proof.
  intros Hx Hnil. unfold Track_refreshClips.
  rewrite (track_command _ _ _ _ Hx), Hnil. simpl forEach.
  rewrite (bind_silent (ret tt) _ w tt w eq_refl).
  rewrite (bind_silent _ _ _ _ _ (modifyTrack_Some _ _ _ _ Hx)).
  assert (Hid : <[t := Track.set_clips [] x]> (trackHeap w) = trackHeap w).
  { apply list_insert_id. rewrite Hx, <- Hnil. now destruct x. }
  rewrite Hid. replace (set_trackHeap (trackHeap w) w) with w by now destruct w.
  rewrite (track_command _ _ _ _ Hx).
  apply refreshLoop_spec; [exact Hx | now rewrite Hnil].
Qed.

(** ** Fields the constructors leave undefined *)

(** The Song's [solo], [mute], [recarm], [selected] and each Track's [name]
    and [vu] are undefined after construction. *)
Lemma fresh_undefined_fields :
  Forall (fun f => Song.get f (song OSC4Bitwig) = VUndef)
         [Song.solo_; Song.mute_; Song.recarm_; Song.selected_]
  /\ Forall (fun x => Track.name x = VUndef /\ Track.vu x = VUndef) (trackHeap OSC4Bitwig).
Proof. vm_compute. split; repeat constructor. Qed.

(** The first message on a Song address among the four, or on a Track's
    [vu] address, emits with [prev] undefined. *)
Lemma first_message_prev_undefined :
  Forall (fun r => forall v,
            deliver (wireAddress r OSC4Bitwig) [v] OSC4Bitwig
            = Ret tt (writeField r v OSC4Bitwig) (changeEvents r v VUndef OSC4Bitwig))
         (map SongField [Song.solo_; Song.mute_; Song.recarm_; Song.selected_]
          ++ map (fun t => TrackField t Track.vu_) (Song.tracks (song OSC4Bitwig))).
Proof.
  apply Forall_forall. intros r Hr v.
  assert (Hw : wired (wireAddress r OSC4Bitwig) r OSC4Bitwig /\ readField r OSC4Bitwig = VUndef).
  { revert r Hr. apply Forall_forall. apply (bool_decide_unpack _). vm_compute. exact I. }
  destruct Hw as [Hw Hu]. rewrite (deliver_entity_field _ _ _ _ Hw), Hu. reflexivity.
Qed.

(** ** Relations kept by every computation *)

#[global] Instance idsKept_preorder : PreOrder idsKept.
Proof.
  split.
  - intros w. split; reflexivity.
  - intros w1 w2 w3 [H1 H2] [H3 H4]. split; [congruence | etransitivity; eassumption].
Qed.

#[global] Instance shapeKept_preorder : PreOrder shapeKept.
Proof. split; [intros w; reflexivity | intros w1 w2 w3 H1 H2; unfold shapeKept in *; congruence]. Qed.

Section Keeps.
Context (R : World -> World -> Prop) `{!PreOrder R}.

Lemma keeps_bind {A B} (m : M A) (k : A -> M B) :
  keeps R m -> (forall a, keeps R (k a)) -> keeps R (m ≫= k).
Proof.
  intros Hm Hk w. specialize (Hm w). unfold mbind, M_bind, bind.
  destruct (m w) as [a w1 t1 | e w1 t1]; simpl in *; [|exact Hm].
  specialize (Hk a w1). destruct (k a w1); simpl in *; etransitivity; eassumption.
Qed.

Lemma keeps_same {A} (m : M A) : (forall w, worldOf (m w) = w) -> keeps R m.
Proof. intros H w. rewrite H. reflexivity. Qed.

Lemma keeps_ret {A} (a : A) : keeps R (ret a).
Proof. now apply keeps_same. Qed.
Lemma keeps_mret {A} (a : A) : keeps R (mret a).
Proof. now apply keeps_same. Qed.
Lemma keeps_throw {A} e : keeps R (@throw A e).
Proof. now apply keeps_same. Qed.
Lemma keeps_getWorld : keeps R getWorld.
Proof. now apply keeps_same. Qed.
Lemma keeps_emit em ev p : keeps R (emit em ev p).
Proof. now apply keeps_same. Qed.
Lemma keeps_send a args : keeps R (send a args).
Proof. now apply keeps_same. Qed.
Lemma keeps_getTrack t : keeps R (getTrack t).
Proof. apply keeps_same. intros w. unfold getTrack. now destruct (trackHeap w !! t). Qed.
Lemma keeps_getClip c : keeps R (getClip c).
Proof. apply keeps_same. intros w. unfold getClip. now destruct (clipHeap w !! c). Qed.

Lemma keeps_forEach {A} (l : list A) (body : A -> M unit) :
  (forall x, In x l -> keeps R (body x)) -> keeps R (forEach l body).
Proof.
  induction l as [|x l IH]; intros H; simpl; [apply keeps_ret|].
  apply keeps_bind; [apply H; now left | intros _; apply IH].
  intros y Hy. apply H. now right.
Qed.

(** An assignment keeps [R] as soon as replacing an object by its updated
    version does. *)
Lemma keeps_modifyTrack t f :
  (forall w x, trackHeap w !! t = Some x ->
               R w (set_trackHeap (<[t := f x]> (trackHeap w)) w)) ->
  keeps R (modifyTrack t f).
Proof.
  intros Hf w. unfold modifyTrack, mbind, M_bind, bind, getTrack.
  destruct (trackHeap w !! t) as [x|] eqn:Hx; simpl; [now apply Hf | reflexivity].
Qed.

Lemma keeps_modifyClip c f :
  (forall w x, clipHeap w !! c = Some x ->
               R w (set_clipHeap (<[c := f x]> (clipHeap w)) w)) ->
  keeps R (modifyClip c f).
Proof.
  intros Hf w. unfold modifyClip, mbind, M_bind, bind, getClip.
  destruct (clipHeap w !! c) as [x|] eqn:Hx; simpl; [now apply Hf | reflexivity].
Qed.

Lemma keeps_Track_emitEvent t ev p : keeps R (Track_emitEvent t ev p).
Proof.
  unfold Track_emitEvent.
  apply keeps_bind; [apply keeps_emit | intros _].
  apply keeps_bind; [apply keeps_getTrack | intros x; apply keeps_emit].
Qed.

Lemma keeps_Clip_emitEvent c ev p : keeps R (Clip_emitEvent c ev p).
Proof.
  unfold Clip_emitEvent.
  apply keeps_bind; [apply keeps_emit | intros _].
  apply keeps_bind; [apply keeps_getClip | intros x].
  apply keeps_bind; [apply keeps_getTrack | intros y; apply keeps_emit].
Qed.

(** The handlers: each keeps [R] provided its one assignment does. *)
Lemma keeps_runListener l args :
  (forall f v w, l = SongL f -> R w (set_song (Song.set f v (song w)) w)) ->
  (forall w ps, length ps = length (Song.fxparams (song w)) ->
                R w (set_song (Song.set_fxparams ps (song w)) w)) ->
  (forall t f v w x, l = TrackL t f -> trackHeap w !! t = Some x ->
                     R w (set_trackHeap (<[t := Track.set f v x]> (trackHeap w)) w)) ->
  (forall t w x ss, trackHeap w !! t = Some x -> length ss = length (Track.sends x) ->
                    R w (set_trackHeap (<[t := Track.set_sends ss x]> (trackHeap w)) w)) ->
  (forall c f v w x, clipHeap w !! c = Some x ->
                     R w (set_clipHeap (<[c := Clip.set f v x]> (clipHeap w)) w)) ->
  keeps R (runListener l args).
Proof.
  intros Hsong Hfx Htrack Hsend Hclip.
  destruct l as [f | i | i | t f | t i | t i | c f]; simpl.
  - unfold Song_listener.
    apply keeps_bind; [apply keeps_getWorld | intros w0].
    apply keeps_bind; [apply keeps_emit | intros _].
    intros w. now apply Hsong.
  - unfold Song_fxNameListener.
    apply keeps_bind; [apply keeps_getWorld | intros w0].
    destruct (Song.fxparams (song w0) !! i); [|apply keeps_throw].
    intros w. apply Hfx. apply length_insert.
  - unfold Song_fxValueListener.
    apply keeps_bind; [apply keeps_getWorld | intros w0].
    destruct (Song.fxparams (song w0) !! i); [|apply keeps_throw].
    intros w. apply Hfx. apply length_insert.
  - unfold Track_listener.
    apply keeps_bind; [apply keeps_getTrack | intros x0].
    apply keeps_bind; [apply keeps_Track_emitEvent | intros _].
    apply keeps_modifyTrack. intros w x Hx. now apply (Htrack t f).
  - unfold Track_sendNameListener.
    apply keeps_bind; [apply keeps_getTrack | intros x0].
    apply keeps_bind; [apply keeps_Track_emitEvent | intros _].
    apply keeps_bind; [apply keeps_getTrack | intros x1].
    destruct (Track.sends x1 !! i); [|apply keeps_throw].
    apply keeps_modifyTrack. intros w x Hx. apply Hsend; [exact Hx | apply length_insert].
  - unfold Track_sendVolumeListener.
    apply keeps_bind; [apply keeps_getTrack | intros x0].
    apply keeps_bind; [apply keeps_Track_emitEvent | intros _].
    apply keeps_bind; [apply keeps_getTrack | intros x1].
    destruct (Track.sends x1 !! i); [|apply keeps_throw].
    apply keeps_modifyTrack. intros w x Hx. apply Hsend; [exact Hx | apply length_insert].
  - unfold Clip_listener.
    apply keeps_bind; [apply keeps_getClip | intros x0].
    apply keeps_bind; [apply keeps_Clip_emitEvent | intros _].
    apply keeps_modifyClip. intros w x Hx. now apply Hclip.
Qed.
End Keeps.

(** ** Ids *)

Lemma idsKept_track w t x y :
  trackHeap w !! t = Some x -> Track.id y = Track.id x ->
  idsKept w (set_trackHeap (<[t := y]> (trackHeap w)) w).
Proof.
  intros Hx Hy. split; [|reflexivity]. unfold trackIds. simpl.
  rewrite list_fmap_insert, Hy. apply list_insert_id. now rewrite list_lookup_fmap, Hx.
Qed.

Lemma idsKept_clip w c x y :
  clipHeap w !! c = Some x -> Clip.id y = Clip.id x ->
  idsKept w (set_clipHeap (<[c := y]> (clipHeap w)) w).
Proof.
  intros Hx Hy. split; [reflexivity|]. unfold clipIds. simpl.
  rewrite list_fmap_insert, Hy, list_insert_id; [reflexivity|].
  now rewrite list_lookup_fmap, Hx.
Qed.

Lemma idsKept_runListener l args : keeps idsKept (runListener l args).
Proof.
  apply keeps_runListener; [apply _ | | | | |].
  - intros f v w _. split; reflexivity.
  - intros w ps _. split; reflexivity.
  - intros t f v w x _ Hx. apply (idsKept_track _ _ _ _ Hx). now destruct f.
  - intros t w x ss Hx _. now apply (idsKept_track _ _ _ _ Hx).
  - intros c f v w x Hx. apply (idsKept_clip _ _ _ _ Hx). now destruct f.
Qed.

Lemma idsKept_deliver a args : keeps idsKept (deliver a args).
Proof.
  unfold deliver. apply keeps_bind; [apply _ | apply keeps_getWorld, _ | intros w0].
  destruct (unhandledError a (subscribers a w0)); [apply keeps_throw, _|].
  apply keeps_forEach; [apply _ | intros l _; apply idsKept_runListener].
Qed.

(** A command changes nothing, whether it returns or raises. *)
Lemma runCommand_world cmd w : worldOf (runCommand cmd w) = w.
Proof.
  destruct cmd; simpl; try reflexivity.
  1: unfold Song_loop; now destruct (truthy forceOn).
  1: unfold Song_setClick; now destruct (truthy state).
  1-8: unfold Track_setName, Track_setRecarm, Track_setSolo, Track_setMute,
         Track_setVolume, Track_setPan, Track_setSendName, Track_view,
         mbind, M_bind, bind, getTrack;
       now destruct (trackHeap w !! t).
  unfold Clip_launch, mbind, M_bind, bind, getClip, getTrack.
  destruct (clipHeap w !! c) as [cl|]; [|reflexivity].
  now destruct (trackHeap w !! Clip.track cl).
Qed.

Lemma idsKept_Clip_new track id : keeps idsKept (Clip_new track id).
Proof.
  unfold Clip_new.
  apply keeps_bind; [apply _ | apply keeps_getWorld, _ | intros w0].
  apply keeps_bind; [apply _ | | intros _].
  { intros w. split; [reflexivity|]. unfold clipIds. simpl.
    rewrite map_app. now apply prefix_app_r. }
  apply keeps_bind; [apply _ | apply keeps_getTrack, _ | intros tr].
  apply keeps_bind; [apply _ | | intros _; apply keeps_ret, _].
  apply keeps_forEach; [apply _ | intros f _]. intros w. split; reflexivity.
Qed.

Lemma idsKept_refreshLoop t k : forall i, keeps idsKept (refreshLoop t i k).
Proof.
  induction k as [|k IH]; intros i; simpl; [apply keeps_ret, _|].
  apply keeps_bind; [apply _ | apply idsKept_Clip_new | intros c].
  apply keeps_bind; [apply _ | | intros _].
  { apply keeps_modifyTrack; [apply _|]. intros w x Hx. now apply (idsKept_track _ _ _ _ Hx). }
  apply keeps_bind; [apply _ | apply keeps_getTrack, _ | intros self].
  apply keeps_bind; [apply _ | apply keeps_send, _ | intros _; apply IH].
Qed.

Lemma idsKept_step o : keeps idsKept (step o).
Proof.
  destruct o as [a args | cmd | t n | t]; simpl.
  - apply idsKept_deliver.
  - apply keeps_same; [apply _ | apply runCommand_world].
  - unfold Track_setNumScenes. apply keeps_modifyTrack; [apply _|].
    intros w x Hx. now apply (idsKept_track _ _ _ _ Hx).
  - unfold Track_refreshClips.
    apply keeps_bind; [apply _ | apply keeps_getTrack, _ | intros self].
    apply keeps_bind; [apply _ | | intros _].
    { apply keeps_forEach; [apply _ | intros c _; apply keeps_throw, _]. }
    apply keeps_bind; [apply _ | | intros _].
    { apply keeps_modifyTrack; [apply _|]. intros w x Hx. now apply (idsKept_track _ _ _ _ Hx). }
    apply keeps_bind; [apply _ | apply keeps_getTrack, _ | intros self'].
    apply idsKept_refreshLoop.
Qed.

Lemma run_idsKept ops : forall w, idsKept w (run ops w).
Proof.
  induction ops as [|o ops IH]; intros w; simpl; [reflexivity|].
  etransitivity; [apply idsKept_step | apply IH].
Qed.

(** ** The shape of the reachable worlds *)

Lemma shape_song w s :
  Song.tracks s = Song.tracks (song w) ->
  length (Song.fxparams s) = length (Song.fxparams (song w)) ->
  shapeKept w (set_song s w).
Proof. intros H1 H2. unfold shapeKept, shape. simpl. now rewrite H1, H2. Qed.

Lemma shape_track w t x y :
  trackHeap w !! t = Some x -> trackShape y = trackShape x ->
  shapeKept w (set_trackHeap (<[t := y]> (trackHeap w)) w).
Proof.
  intros Hx Hy. unfold shapeKept, shape. simpl. do 2 f_equal.
  rewrite list_fmap_insert, Hy. apply list_insert_id. now rewrite list_lookup_fmap, Hx.
Qed.

Lemma shape_clip w c x y :
  clipHeap w !! c = Some x -> clipShape y = clipShape x ->
  shapeKept w (set_clipHeap (<[c := y]> (clipHeap w)) w).
Proof.
  intros Hx Hy. unfold shapeKept, shape. simpl. f_equal.
  rewrite list_fmap_insert, Hy. apply list_insert_id. now rewrite list_lookup_fmap, Hx.
Qed.

Lemma shapeKept_runListener l args :
  registeredListener l = true -> keeps shapeKept (runListener l args).
Proof.
  intros Hreg. apply keeps_runListener; [apply _ | | | | |].
  - intros f v w _. apply shape_song; now destruct f.
  - intros w ps Hlen. now apply shape_song.
  - intros t f v w x -> Hx. apply (shape_track _ _ _ _ Hx).
    destruct f; try reflexivity. discriminate Hreg.
  - intros t w x ss Hx Hlen. apply (shape_track _ _ _ _ Hx).
    unfold trackShape. simpl. now rewrite Hlen.
  - intros c f v w x Hx. apply (shape_clip _ _ _ _ Hx). now destruct f.
Qed.

Lemma fresh_listeners_registered :
  Forall (fun s => registeredListener (snd s) = true) (receiver OSC4Bitwig).
Proof. apply (bool_decide_unpack _). vm_compute. exact I. Qed.

Lemma Inv_parts w :
  Inv w ->
  receiver w = receiver OSC4Bitwig
  /\ map trackShape (trackHeap w) = map trackShape (trackHeap OSC4Bitwig)
  /\ map clipShape (clipHeap w) = map clipShape (clipHeap OSC4Bitwig).
Proof.
  intros HI. unfold Inv, shape in HI.
  split; [exact (f_equal (fun p => p.1.1.1.1) HI)|].
  split; [exact (f_equal (fun p => p.1.2) HI) | exact (f_equal (fun p => p.2) HI)].
Qed.

Lemma subscribers_registered a w :
  Inv w -> forall l, In l (subscribers a w) -> registeredListener l = true.
Proof.
  intros HI l Hl. unfold subscribers in Hl.
  apply in_map_iff in Hl. destruct Hl as (s & <- & Hs).
  apply list_elem_of_In, list_elem_of_filter in Hs. destruct Hs as [_ Hs].
  rewrite (proj1 (Inv_parts w HI)) in Hs.
  exact (proj1 (Forall_forall _ _) fresh_listeners_registered s (proj1 (list_elem_of_In _ _) Hs)).
Qed.

Lemma Inv_track w t :
  Inv w -> (trackShape <$> trackHeap w !! t) = (trackShape <$> trackHeap OSC4Bitwig !! t).
Proof.
  intros HI. destruct (Inv_parts w HI) as (_ & H & _).
  rewrite <- !list_lookup_fmap.
  change (map trackShape (trackHeap w) !! t = map trackShape (trackHeap OSC4Bitwig) !! t).
  now rewrite H.
Qed.

Lemma Inv_clip w c :
  Inv w -> (clipShape <$> clipHeap w !! c) = (clipShape <$> clipHeap OSC4Bitwig !! c).
Proof.
  intros HI. destruct (Inv_parts w HI) as (_ & _ & H).
  rewrite <- !list_lookup_fmap.
  change (map clipShape (clipHeap w) !! c = map clipShape (clipHeap OSC4Bitwig) !! c).
  now rewrite H.
Qed.

Lemma fresh_tracks : forallb freshTrack (Song.tracks (song OSC4Bitwig)) = true.
Proof. vm_compute. reflexivity. Qed.

Lemma Inv_fresh_track w t :
  Inv w -> In t (Song.tracks (song OSC4Bitwig)) ->
  exists x, trackHeap w !! t = Some x
            /\ Track.clips x <> [] /\ Track.name x = VUndef
            /\ trackIdAt t w = trackIdAt t OSC4Bitwig
            /\ subscribers ("/track/" +:+ string_of_Z (trackIdAt t OSC4Bitwig) +:+ "/name") w = []
            /\ (Track.clips <$> trackHeap OSC4Bitwig !! t) = Some (Track.clips x).
Proof.
  intros HI Ht.
  pose proof (proj1 (forallb_forall _ _) fresh_tracks t Ht) as H0.
  unfold freshTrack in H0.
  destruct (trackHeap OSC4Bitwig !! t) as [x0|] eqn:Hx0; [|discriminate].
  apply andb_prop in H0. destruct H0 as [H0 Hs].
  apply andb_prop in H0. destruct H0 as [Hc Hn].
  apply bool_decide_eq_true_1 in Hc, Hn, Hs.
  pose proof (Inv_track w t HI) as H. rewrite Hx0 in H.
  destruct (trackHeap w !! t) as [x|] eqn:Hx; [|discriminate].
  simpl in H. injection H as Hid Hcl _ Hnm.
  exists x. split; [reflexivity|]. split; [congruence|]. split; [congruence|].
  unfold trackIdAt. rewrite Hx, Hx0. simpl. split; [exact Hid|].
  split; [|now rewrite Hcl].
  unfold subscribers in *. now rewrite (proj1 (Inv_parts w HI)).
Qed.

Lemma step_Inv o w : Inv w -> Inv (worldOf (step o w)).
Proof.
  intros HI. unfold Inv. transitivity (shape w); [|exact HI].
  change (shapeKept w (worldOf (step o w))).
  destruct o as [a args | cmd | t n | t]; simpl.
  - unfold deliver. rewrite (bind_silent getWorld _ w w w eq_refl).
    destruct (unhandledError a (subscribers a w)); [reflexivity|].
    apply keeps_forEach; [apply _|].
    intros l Hl. apply shapeKept_runListener. now apply (subscribers_registered a w).
  - rewrite runCommand_world. reflexivity.
  - unfold Track_setNumScenes. apply keeps_modifyTrack; [apply _|].
    intros w' x Hx. now apply (shape_track _ _ _ _ Hx).
  - destruct (trackHeap w !! t) as [x|] eqn:Hx.
    + assert (Hne : Track.clips x <> []).
      { pose proof (Inv_track w t HI) as H. rewrite Hx in H.
        destruct (trackHeap OSC4Bitwig !! t) as [x0|] eqn:Hx0; [|discriminate].
        simpl in H. injection H as _ Hcl _ _. rewrite Hcl. clear Hcl.
        apply list_elem_of_lookup_2, list_elem_of_In in Hx0. revert x0 Hx0.
        apply Forall_forall. vm_compute. repeat constructor; discriminate. }
      rewrite (refreshClips_raises _ _ _ Hx Hne). reflexivity.
    + unfold Track_refreshClips, mbind, M_bind, bind, getTrack. rewrite Hx. reflexivity.
Qed.

Lemma run_Inv ops : forall w, Inv w -> Inv (run ops w).
Proof.
  induction ops as [|o ops IH]; intros w HI; simpl; [exact HI|].
  apply IH. now apply step_Inv.
Qed.

(** Every reachable world has the shape construction gave it. *)
Lemma reachable_Inv w : reachable w -> Inv w.
Proof. intros [ops ->]. apply run_Inv. reflexivity. Qed.

Lemma live_of_shape r w w' :
  (forall t, (trackShape <$> trackHeap w' !! t) = (trackShape <$> trackHeap w !! t)) ->
  (forall c, (clipShape <$> clipHeap w' !! c) = (clipShape <$> clipHeap w !! c)) ->
  fieldLive r w -> fieldLive r w'.
Proof.
  intros Ht Hc.
  assert (HT : forall t, trackLive t w -> trackLive t w').
  { intros t [x Hx]. unfold trackLive. specialize (Ht t). rewrite Hx in Ht.
    destruct (trackHeap w' !! t); [eauto | discriminate]. }
  destruct r as [f | t f | c f]; simpl; [trivial | apply HT |].
  unfold clipLive. specialize (Hc c).
  destruct (clipHeap w !! c) as [cl|]; [|contradiction].
  destruct (clipHeap w' !! c) as [cl'|]; [|discriminate].
  simpl in Hc. injection Hc as -> _. apply HT.
Qed.

(** In a reachable world every address of the fresh instance still reaches
    the same single listener, on a live object. *)
Lemma Inv_wired a r w : Inv w -> wired a r OSC4Bitwig -> wired a r w.
Proof.
  intros HI [Hs Hl]. split.
  - unfold subscribers in *. now rewrite (proj1 (Inv_parts w HI)).
  - apply (live_of_shape r OSC4Bitwig w); [intros t; now apply Inv_track | intros c; now apply Inv_clip | exact Hl].
Qed.


(** ** What no operation undoes *)

#[global] Instance grows_preorder : PreOrder grows.
Proof.
  split.
  - intros w. repeat split; reflexivity.
  - intros w1 w2 w3 (A1 & A2 & A3 & A4 & A5 & A6) (B1 & B2 & B3 & B4 & B5 & B6).
    repeat split; try congruence; etransitivity; eassumption.
Qed.

Section KeepsStep.
Context (R : World -> World -> Prop) `{!PreOrder R}.
Hypothesis R_song : forall f v w, R w (set_song (Song.set f v (song w)) w).
Hypothesis R_fxparams : forall w ps,
  length ps = length (Song.fxparams (song w)) ->
  R w (set_song (Song.set_fxparams ps (song w)) w).
Hypothesis R_track : forall t f v w x,
  trackHeap w !! t = Some x ->
  R w (set_trackHeap (<[t := Track.set f v x]> (trackHeap w)) w).
Hypothesis R_sends : forall t w x ss,
  trackHeap w !! t = Some x -> length ss = length (Track.sends x) ->
  R w (set_trackHeap (<[t := Track.set_sends ss x]> (trackHeap w)) w).
Hypothesis R_clips : forall t w x cs,
  trackHeap w !! t = Some x ->
  R w (set_trackHeap (<[t := Track.set_clips cs x]> (trackHeap w)) w).
Hypothesis R_numScenes : forall t w x n,
  trackHeap w !! t = Some x ->
  R w (set_trackHeap (<[t := Track.set_numScenes n x]> (trackHeap w)) w).
Hypothesis R_clip : forall c f v w x,
  clipHeap w !! c = Some x ->
  R w (set_clipHeap (<[c := Clip.set f v x]> (clipHeap w)) w).
Hypothesis R_alloc : forall w c, R w (set_clipHeap (clipHeap w ++ [c]) w).
Hypothesis R_on : forall w a l, R w (set_receiver (receiver w ++ [(a, l)]) w).

Lemma kept_deliver a args : keeps R (deliver a args).
Proof.
  unfold deliver. apply keeps_bind; [apply _ | apply keeps_getWorld, _ | intros w0].
  destruct (unhandledError a (subscribers a w0)); [apply keeps_throw, _|].
  apply keeps_forEach; [apply _ | intros l _].
  apply keeps_runListener; [apply _ | | | | |].
  - intros f v w _. apply R_song.
  - apply R_fxparams.
  - intros t f v w x _. apply R_track.
  - apply R_sends.
  - apply R_clip.
Qed.

Lemma kept_Clip_new track id : keeps R (Clip_new track id).
Proof.
  unfold Clip_new.
  apply keeps_bind; [apply _ | apply keeps_getWorld, _ | intros w0].
  apply keeps_bind; [apply _ | intros w; apply R_alloc | intros _].
  apply keeps_bind; [apply _ | apply keeps_getTrack, _ | intros tr].
  apply keeps_bind; [apply _ | | intros _; apply keeps_ret, _].
  apply keeps_forEach; [apply _ | intros f _]. intros w. apply R_on.
Qed.

Lemma kept_refreshLoop t k : forall i, keeps R (refreshLoop t i k).
Proof.
  induction k as [|k IH]; intros i; simpl; [apply keeps_ret, _|].
  apply keeps_bind; [apply _ | apply kept_Clip_new | intros c].
  apply keeps_bind; [apply _ | | intros _].
  { apply keeps_modifyTrack; [apply _|]. intros w x Hx. now apply R_clips. }
  apply keeps_bind; [apply _ | apply keeps_getTrack, _ | intros self].
  apply keeps_bind; [apply _ | apply keeps_send, _ | intros _; apply IH].
Qed.

Lemma kept_step o : keeps R (step o).
Proof.
  destruct o as [a args | cmd | t n | t]; simpl.
  - apply kept_deliver.
  - apply keeps_same; [apply _ | apply runCommand_world].
  - unfold Track_setNumScenes. apply keeps_modifyTrack; [apply _|].
    intros w x Hx. now apply R_numScenes.
  - unfold Track_refreshClips.
    apply keeps_bind; [apply _ | apply keeps_getTrack, _ | intros self].
    apply keeps_bind; [apply _ | | intros _].
    { apply keeps_forEach; [apply _ | intros c _; apply keeps_throw, _]. }
    apply keeps_bind; [apply _ | | intros _].
    { apply keeps_modifyTrack; [apply _|]. intros w x Hx. now apply R_clips. }
    apply keeps_bind; [apply _ | apply keeps_getTrack, _ | intros self'].
    apply kept_refreshLoop.
Qed.

Lemma kept_run ops : forall w, R w (run ops w).
Proof.
  induction ops as [|o ops IH]; intros w; simpl; [reflexivity|].
  etransitivity; [apply kept_step | apply IH].
Qed.
End KeepsStep.

Lemma grows_track w t x y :
  trackHeap w !! t = Some x -> trackFixed y = trackFixed x ->
  grows w (set_trackHeap (<[t := y]> (trackHeap w)) w).
Proof.
  intros Hx Hy. repeat split; try reflexivity. simpl.
  rewrite list_fmap_insert, Hy. apply list_insert_id. now rewrite list_lookup_fmap, Hx.
Qed.

Lemma grows_clip w c x y :
  clipHeap w !! c = Some x -> clipShape y = clipShape x ->
  grows w (set_clipHeap (<[c := y]> (clipHeap w)) w).
Proof.
  intros Hx Hy. repeat split; try reflexivity. simpl.
  rewrite list_fmap_insert, Hy, list_insert_id; [reflexivity|].
  now rewrite list_lookup_fmap, Hx.
Qed.

Lemma run_grows ops w : grows w (run ops w).
Proof.
  apply kept_run; [apply _ | | | | | | | | |].
  - intros f v w0. repeat split; try reflexivity; now destruct f.
  - intros w0 ps Hlen. repeat split; try reflexivity. exact Hlen.
  - intros t f v w0 x Hx. apply (grows_track _ _ _ _ Hx). now destruct f.
  - intros t w0 x ss Hx Hlen. apply (grows_track _ _ _ _ Hx).
    unfold trackFixed. simpl. now rewrite Hlen.
  - intros t w0 x cs Hx. now apply (grows_track _ _ _ _ Hx).
  - intros t w0 x n Hx. now apply (grows_track _ _ _ _ Hx).
  - intros c f v w0 x Hx. apply (grows_clip _ _ _ _ Hx). now destruct f.
  - intros w0 c. repeat split; try reflexivity. simpl. rewrite map_app. now apply prefix_app_r.
  - intros w0 a l. repeat split; try reflexivity. simpl. now apply prefix_app_r.
Qed.

(** ** One handler per address *)

Lemma distinct_NoDup (l : list string) : distinct l = true -> NoDup l.
Proof.
  induction l as [|a l IH]; simpl; intros H; [constructor|].
  apply andb_prop in H. destruct H as [Ha Hl]. constructor; [|now apply IH].
  intros Hin. apply list_elem_of_In in Hin. apply negb_true_iff in Ha.
  assert (He : existsb (String.eqb a) l = true).
  { apply existsb_exists. exists a. split; [exact Hin | apply String.eqb_refl]. }
  congruence.
Qed.

Lemma fresh_addresses_distinct : NoDup (map fst (receiver OSC4Bitwig)).
Proof. apply distinct_NoDup. vm_compute. reflexivity. Qed.

Lemma filter_address_absent (a : string) (l : list (string * Listener)) :
  ~ In a (map fst l) -> filter (fun s => String.eqb (fst s) a = true) l = [].
Proof.
  induction l as [|s l IH]; intros Hn; [reflexivity|].
  rewrite filter_cons. destruct (decide (String.eqb (fst s) a = true)) as [He|He].
  - apply String.eqb_eq in He. destruct Hn. left. exact He.
  - apply IH. intros Hin. apply Hn. now right.
Qed.

Lemma filter_address_at_most_one (a : string) (l : list (string * Listener)) :
  NoDup (map fst l) ->
  (length (filter (fun s => String.eqb (fst s) a = true) l) <= 1)%nat.
Proof.
  induction l as [|s l IH]; intros Hnd; [simpl; lia|].
  simpl in Hnd. inversion Hnd as [|? ? Hs Hnd']; subst. clear Hnd. rename Hnd' into Hnd.
  rewrite filter_cons. destruct (decide (String.eqb (fst s) a = true)) as [He|He].
  - apply String.eqb_eq in He. subst a.
    rewrite filter_address_absent; [simpl; lia|].
    intros Hin. apply Hs. now apply list_elem_of_In.
  - now apply IH.
Qed.

Lemma Inv_one_handler a w : Inv w -> (length (subscribers a w) <= 1)%nat.
Proof.
  intros HI. unfold subscribers. rewrite length_map, (proj1 (Inv_parts w HI)).
  apply filter_address_at_most_one, fresh_addresses_distinct.
Qed.

(** ** Handlers on live objects return *)

Lemma fresh_listeners_live :
  Forall (fun s => listenerLive (snd s) OSC4Bitwig) (receiver OSC4Bitwig).
Proof. apply (bool_decide_unpack _). vm_compute. exact I. Qed.

Lemma Inv_fxparams w : Inv w -> length (Song.fxparams (song w)) = 8%nat.
Proof. intros HI. unfold Inv, shape in HI. exact (f_equal (fun p => p.1.1.2) HI). Qed.

Lemma Inv_tracks w : Inv w -> Song.tracks (song w) = Song.tracks (song OSC4Bitwig).
Proof. intros HI. unfold Inv, shape in HI. exact (f_equal (fun p => p.1.1.1.2) HI). Qed.

Lemma Inv_listenerLive l w : Inv w -> listenerLive l OSC4Bitwig -> listenerLive l w.
Proof.
  intros HI.
  assert (Hfx : forall i, is_Some (Song.fxparams (song OSC4Bitwig) !! i) ->
                          is_Some (Song.fxparams (song w) !! i)).
  { intros i Hi. apply lookup_lt_is_Some. apply lookup_lt_is_Some in Hi.
    rewrite (Inv_fxparams w HI). exact Hi. }
  assert (Hsend : forall t i,
             match trackHeap OSC4Bitwig !! t with
             | Some x => is_Some (Track.sends x !! i) | None => False end ->
             match trackHeap w !! t with
             | Some x => is_Some (Track.sends x !! i) | None => False end).
  { intros t i. pose proof (Inv_track w t HI) as H.
    destruct (trackHeap OSC4Bitwig !! t) as [x0|]; [|contradiction].
    destruct (trackHeap w !! t) as [x|]; [|discriminate].
    simpl in H. injection H as _ _ Hlen _. intros Hi.
    apply lookup_lt_is_Some. apply lookup_lt_is_Some in Hi. now rewrite Hlen. }
  destruct l as [f | i | i | t f | t i | t i | c f]; simpl;
    [trivial | apply Hfx | apply Hfx | | apply Hsend | apply Hsend |].
  - apply (live_of_shape (TrackField t f) OSC4Bitwig w);
      [intros u; now apply Inv_track | intros d; now apply Inv_clip].
  - apply (live_of_shape (ClipField c f) OSC4Bitwig w);
      [intros u; now apply Inv_track | intros d; now apply Inv_clip].
Qed.

Lemma runListener_returns l args w :
  listenerLive l w ->
  exists w' tr, runListener l args w = Ret tt w' tr
                /\ Forall (fun e => isEmitted e = true) tr /\ (length tr <= 2)%nat.
Proof.
  intros Hl. destruct l as [f | i | i | t f | t i | t i | c f].
  - pose proof (listener_spec (SongField f) args w Hl) as E. simpl listenerOf in E.
    rewrite E. eexists _, _. split; [reflexivity|].
    split; [repeat constructor | simpl; lia].
  - destruct Hl as [p Hp]. eexists _, _.
    split; [apply (fx_listener_spec _ _ _ _ Hp) | split; [constructor | simpl; lia]].
  - destruct Hl as [p Hp]. eexists _, _.
    split; [apply (fx_listener_spec _ _ _ _ Hp) | split; [constructor | simpl; lia]].
  - pose proof (listener_spec (TrackField t f) args w Hl) as E. simpl listenerOf in E.
    rewrite E. eexists _, _. split; [reflexivity|].
    split; [repeat constructor | simpl; lia].
  - simpl in Hl. destruct (trackHeap w !! t) as [x|] eqn:Hx; [|contradiction].
    destruct Hl as [s Hs].
    destruct (proj1 (send_listener_returns t i (arg 0 args) w x s Hx Hs)) as [tr Htr].
    pose proof (sendName_trace t i (arg 0 args) w x Hx) as Ht.
    simpl. rewrite Htr in Ht |- *. simpl in Ht. subst tr. eexists _, _.
    split; [reflexivity | split; [repeat constructor | simpl; lia]].
  - simpl in Hl. destruct (trackHeap w !! t) as [x|] eqn:Hx; [|contradiction].
    destruct Hl as [s Hs].
    destruct (proj2 (send_listener_returns t i (arg 0 args) w x s Hx Hs)) as [tr Htr].
    pose proof (sendVolume_trace t i (arg 0 args) w x Hx) as Ht.
    simpl. rewrite Htr in Ht |- *. simpl in Ht. subst tr. eexists _, _.
    split; [reflexivity | split; [repeat constructor | simpl; lia]].
  - pose proof (listener_spec (ClipField c f) args w Hl) as E. simpl listenerOf in E.
    rewrite E. eexists _, _. split; [reflexivity|].
    split; [repeat constructor | simpl; lia].
Qed.

Lemma Inv_subscriber_live a l w : Inv w -> In l (subscribers a w) -> listenerLive l w.
Proof.
  intros HI Hl. apply (Inv_listenerLive l w HI).
  unfold subscribers in Hl. apply in_map_iff in Hl. destruct Hl as (s & <- & Hs).
  apply list_elem_of_In, list_elem_of_filter in Hs. destruct Hs as [_ Hs].
  rewrite (proj1 (Inv_parts w HI)) in Hs.
  exact (proj1 (Forall_forall _ _) fresh_listeners_live s (proj1 (list_elem_of_In _ _) Hs)).
Qed.

(** ** The tree of objects *)

Lemma fresh_trees : forallb freshTree (Song.tracks (song OSC4Bitwig)) = true.
Proof. vm_compute. reflexivity. Qed.

Lemma lookup_combine_seq {A} (l : list A) : forall (n j : nat) (x : A),
  l !! j = Some x -> In ((n + j)%nat, x) (combine (seq n (length l)) l).
Proof.
  induction l as [|y l IH]; intros n [|j] x H; simpl in *; try discriminate.
  - injection H as ->. left. f_equal. lia.
  - right. replace (n + S j)%nat with (S n + j)%nat by lia. now apply IH.
Qed.

(** ** The inbound address table *)

Lemma fresh_track_wiring : forallb freshTrackWiring (seq 0 8) = true.
Proof. vm_compute. reflexivity. Qed.

Lemma fresh_fx_wiring : forallb freshFxWiring (seq 0 8) = true.
Proof. vm_compute. reflexivity. Qed.

Lemma Inv_subscribers a w : Inv w -> subscribers a w = subscribers a OSC4Bitwig.
Proof. intros HI. unfold subscribers. now rewrite (proj1 (Inv_parts w HI)). Qed.

Lemma in_seq_0 (n i : nat) : (i < n)%nat -> In i (seq 0 n).
Proof. intros H. apply in_seq. lia. Qed.

(** In a reachable world the Track at an index below 8 is there, with the
    id and the collections of construction and no name. *)
Lemma Inv_track_at w t :
  Inv w -> (t < 8)%nat ->
  exists x, trackHeap w !! t = Some x
            /\ Track.id x = Z.of_nat t + 1
            /\ length (Track.sends x) = 6%nat
            /\ Track.name x = VUndef
            /\ length (Track.clips x) = 8%nat
            /\ (forall j, Track.clips x !! j = clipAt t j OSC4Bitwig).
Proof.
  intros HI Ht.
  assert (Hin : In t (Song.tracks (song OSC4Bitwig))) by (apply (in_seq_0 8 t Ht)).
  pose proof (proj1 (forallb_forall _ _) fresh_trees t Hin) as H0. unfold freshTree in H0.
  destruct (Inv_fresh_track w t HI Hin) as (x & Hx & _ & Hn & _ & _ & Hcl).
  pose proof (Inv_track w t HI) as Hsh. rewrite Hx in Hsh.
  unfold clipAt.
  destruct (trackHeap OSC4Bitwig !! t) as [x0|]; [|discriminate].
  simpl in Hsh. injection Hsh as Hid _ Hlen _. simpl in Hcl. injection Hcl as Hcl.
  apply andb_prop in H0. destruct H0 as [H0 _].
  apply andb_prop in H0. destruct H0 as [H0 Hc8].
  apply andb_prop in H0. destruct H0 as [Hi Hs6].
  apply bool_decide_eq_true_1 in Hi, Hs6, Hc8.
  exists x. split; [exact Hx|]. split; [congruence|]. split; [congruence|].
  split; [exact Hn|]. split; [congruence|]. intros j. simpl. now rewrite Hcl.
Qed.

(** ... and the Clip at an index of its collection is there, with that
    index for id, pointing back to the Track. *)
Lemma Inv_clip_at w t j c :
  Inv w -> (t < 8)%nat -> clipAt t j OSC4Bitwig = Some c ->
  exists cl, clipHeap w !! c = Some cl /\ Clip.track cl = t /\ Clip.id cl = Z.of_nat j.
Proof.
  intros HI Ht Hc.
  pose proof (proj1 (forallb_forall _ _) fresh_trees t (in_seq_0 8 t Ht)) as H0.
  unfold freshTree in H0. unfold clipAt in Hc.
  destruct (trackHeap OSC4Bitwig !! t) as [x0|]; [|discriminate].
  simpl in Hc. apply andb_prop in H0. destruct H0 as [_ Hcs].
  pose proof (lookup_combine_seq (Track.clips x0) 0 j c Hc) as Hin.
  pose proof (proj1 (forallb_forall _ _) Hcs _ Hin) as Hjc.
  apply bool_decide_eq_true_1 in Hjc. cbn [fst snd] in Hjc.
  rewrite <- (Inv_clip w c HI) in Hjc.
  destruct (clipHeap w !! c) as [cl|]; [|discriminate].
  simpl in Hjc. injection Hjc as Htr Hcid. exists cl. auto.
Qed.

Lemma fresh_track_wiring_at t :
  (t < 8)%nat ->
  (forall f, In f Track.registered ->
             subscribers (trackAddress t (Track.evname f)) OSC4Bitwig = [TrackL t f])
  /\ (forall i, (i < 6)%nat ->
                subscribers (sendAddress t i "name") OSC4Bitwig = [SendNameL t i]
                /\ subscribers (sendAddress t i "volume") OSC4Bitwig = [SendVolumeL t i])
  /\ (forall j, (j < 8)%nat ->
                exists c, clipAt t j OSC4Bitwig = Some c
                          /\ forall f, subscribers (slotAddress t j (Clip.name f)) OSC4Bitwig
                                       = [ClipL c f]).
Proof.
  intros Ht.
  pose proof (proj1 (forallb_forall _ _) fresh_track_wiring t (in_seq_0 8 t Ht)) as H0.
  unfold freshTrackWiring in H0.
  apply andb_prop in H0. destruct H0 as [H0 Hslots].
  apply andb_prop in H0. destruct H0 as [Hfields Hsends].
  split; [|split].
  - intros f Hf. pose proof (proj1 (forallb_forall _ _) Hfields f Hf) as H.
    cbv beta in H. now apply bool_decide_eq_true_1 in H.
  - intros i Hi.
    pose proof (proj1 (forallb_forall _ _) Hsends i (in_seq_0 6 i Hi)) as H.
    cbv beta in H. apply andb_prop in H. destruct H as [H1 H2].
    apply bool_decide_eq_true_1 in H1, H2. now split.
  - intros j Hj.
    pose proof (proj1 (forallb_forall _ _) Hslots j (in_seq_0 8 j Hj)) as H.
    cbv beta in H. destruct (clipAt t j OSC4Bitwig) as [c|]; [|discriminate].
    exists c. split; [reflexivity|]. intros f.
    assert (Hf : In f Clip.fields) by (destruct f; simpl; auto 10).
    pose proof (proj1 (forallb_forall _ _) H f Hf) as H'.
    cbv beta in H'. now apply bool_decide_eq_true_1 in H'.
Qed.

Lemma Inv_trackIdAt w t : Inv w -> (t < 8)%nat -> trackIdAt t w = Z.of_nat t + 1.
Proof.
  intros HI Ht. destruct (Inv_track_at w t HI Ht) as (x & Hx & Hid & _).
  unfold trackIdAt. now rewrite Hx.
Qed.

Lemma writeSub_frame s v w r : readField r (writeSub s v w) = readField r w.
Proof.
  destruct s as [i | i | t i | t i], r as [f | u f | c f]; simpl; try reflexivity.
  all: destruct (decide (t = u)) as [->|Hne];
    [rewrite list_lookup_alter_eq | now rewrite list_lookup_alter_ne].
  all: destruct (trackHeap w !! u); simpl; [now destruct f | reflexivity].
Qed.

(** ** Commands and their echo *)


Lemma fresh_no_scene_address :
  forallb (fun s => negb (String.prefix "/scene/" (fst s))) (receiver OSC4Bitwig) = true.
Proof. vm_compute. reflexivity. Qed.

Lemma prefix_append (p s : string) : String.prefix p (p +:+ s) = true.
Proof.
  induction p as [|a p IH]; simpl; [now destruct s|].
  destruct (Ascii.ascii_dec a a) as [_|Hne]; [exact IH | now destruct Hne].
Qed.

Lemma scene_address_unsubscribed (s : string) w :
  Inv w -> subscribers ("/scene/" +:+ s) w = [].
Proof.
  intros HI. rewrite (Inv_subscribers _ w HI). unfold subscribers.
  rewrite filter_address_absent; [reflexivity|].
  intros Hin. apply in_map_iff in Hin. destruct Hin as (e & He & Hin).
  pose proof (proj1 (forallb_forall _ _) fresh_no_scene_address e Hin) as H.
  cbv beta in H. rewrite He, prefix_append in H. discriminate H.
Qed.

(** ** Sequences of messages *)

Lemma writeField_comm r1 r2 v1 v2 w :
  r1 <> r2 ->
  writeField r1 v1 (writeField r2 v2 w) = writeField r2 v2 (writeField r1 v1 w).
Proof.
  intros Hne.
  destruct r1 as [f | t f | c f], r2 as [g | u g | d g]; simpl; try reflexivity.
  - unfold set_song. simpl. f_equal.
    destruct f, g; try reflexivity; now destruct Hne.
  - unfold set_trackHeap. simpl. f_equal.
    destruct (decide (t = u)) as [->|Htu]; [|now apply list_alter_alter_ne].
    rewrite !list_alter_alter_eq. apply list_alter_ext; [|reflexivity].
    intros x _. simpl. destruct f, g; try reflexivity. all: now destruct Hne.
  - unfold set_clipHeap. simpl. f_equal.
    destruct (decide (c = d)) as [->|Hcd]; [|now apply list_alter_alter_ne].
    rewrite !list_alter_alter_eq. apply list_alter_ext; [|reflexivity].
    intros x _. simpl. destruct f, g; try reflexivity. all: now destruct Hne.
Qed.

Lemma writeField_overwrite r v1 v2 w :
  writeField r v2 (writeField r v1 w) = writeField r v2 w.
Proof.
  destruct r as [f | t f | c f]; simpl.
  - unfold set_song. simpl. f_equal. now destruct f.
  - unfold set_trackHeap. simpl. f_equal. rewrite list_alter_alter_eq.
    apply list_alter_ext; [|reflexivity]. intros x _. simpl. now destruct f.
  - unfold set_clipHeap. simpl. f_equal. rewrite list_alter_alter_eq.
    apply list_alter_ext; [|reflexivity]. intros x _. simpl. now destruct f.
Qed.

Lemma wired_writeField a r r' v w : wired a r w -> wired a r (writeField r' v w).
Proof.
  intros [Hs Hl]. split; [now rewrite subscribers_writeField | now apply writeField_live].
Qed.

Lemma songEvents_changeEvents r v p seen : songEvents (changeEvents r v p seen) = [(v, p)].
Proof. now destruct r. Qed.

Lemma songEvents_app tr1 tr2 : songEvents (tr1 ++ tr2) = songEvents tr1 ++ songEvents tr2.
Proof.
  unfold songEvents. induction tr1 as [|e tr1 IH]; [reflexivity|].
  simpl app. rewrite !filter_cons. destruct (decide (emittedOn SongEmitter e = true)).
  - simpl. now f_equal.
  - exact IH.
Qed.

(** ** Event objects *)




(** ** Counting the subscriptions of a refresh *)

Lemma length_clipSubscriptions tid (l : list (nat * nat)) :
  length (flat_map (fun p => clipSubscriptions tid (fst p) (snd p)) l) = (6 * length l)%nat.
Proof. induction l as [|p l IH]; simpl; [reflexivity | rewrite IH; lia]. Qed.

Lemma length_zip_seq (n : nat) : forall a b, length (zip (seq a n) (seq b n)) = n.
Proof. induction n as [|n IH]; intros a b; simpl; [reflexivity | now rewrite IH]. Qed.

(** ** Who may change a field *)

Lemma fresh_receiver_on_addresses : forallb onItsAddress (receiver OSC4Bitwig) = true.
Proof. vm_compute. reflexivity. Qed.

Lemma registeredField_In r w : registeredField r w = true -> In r (entityFields w).
Proof.
  unfold entityFields. destruct r as [f | t f | c f]; unfold registeredField; intros H.
  - apply bool_decide_eq_true_1, list_elem_of_In in H.
    apply in_or_app. left. now apply in_map.
  - apply andb_prop in H. destruct H as [Ht Hf].
    apply bool_decide_eq_true_1, list_elem_of_In in Ht, Hf.
    apply in_or_app. right. apply in_or_app. left.
    apply in_flat_map. exists t. split; [exact Ht | now apply in_map].
  - apply andb_prop in H. destruct H as [Hc Hf].
    apply existsb_exists in Hc. destruct Hc as (t & Ht & Hc).
    apply bool_decide_eq_true_1, list_elem_of_In in Hc, Hf.
    apply in_or_app. right. apply in_or_app. right.
    apply in_flat_map. exists t. split; [exact Ht|].
    apply in_flat_map. exists c. split; [exact Hc | now apply in_map].
Qed.

Lemma subscribers_In a l w : In l (subscribers a w) -> In (a, l) (receiver w).
Proof.
  unfold subscribers. intros Hl. apply in_map_iff in Hl. destruct Hl as ([a' l'] & <- & Hs).
  apply list_elem_of_In, list_elem_of_filter in Hs. destruct Hs as [He Hs].
  simpl in He. apply String.eqb_eq in He. subst a'. now apply list_elem_of_In.
Qed.

Lemma listenerOf_fieldOfListener l r : fieldOfListener l = Some r -> listenerOf r = l.
Proof. destruct l; simpl; intros H; try discriminate; now injection H as <-. Qed.

(** What a handler other than an entity-field listener leaves of the
    entity fields: everything. *)
Lemma subfield_listener_frame l args w r :
  fieldOfListener l = None -> readField r (worldOf (runListener l args w)) = readField r w.
Proof.
  destruct l as [f | i | i | t f | t i | t i | c f]; simpl; intros H; try discriminate.
  - unfold Song_fxNameListener. rewrite (bind_silent getWorld _ w w w eq_refl).
    destruct (Song.fxparams (song w) !! i); [|reflexivity]. now destruct r.
  - unfold Song_fxValueListener. rewrite (bind_silent getWorld _ w w w eq_refl).
    destruct (Song.fxparams (song w) !! i); [|reflexivity]. now destruct r.
  - destruct (trackHeap w !! t) as [x|] eqn:Hx.
    + destruct (Track.sends x !! i) as [s|] eqn:Hs.
      * destruct (proj1 (send_listener_returns t i (arg 0 args) w x s Hx Hs)) as [tr Htr].
        rewrite Htr. apply writeSub_frame.
      * unfold Track_sendNameListener, Track_emitEvent.
        rewrite (track_command _ _ _ _ Hx).
        unfold mbind at 1, M_bind, bind at 1.
        unfold mbind at 1, bind at 1, emit at 1.
        rewrite (track_command _ _ _ _ Hx). unfold emit.
        rewrite (track_command _ _ _ _ Hx), Hs. reflexivity.
    + unfold Track_sendNameListener, mbind, M_bind, bind, getTrack. now rewrite Hx.
  - destruct (trackHeap w !! t) as [x|] eqn:Hx.
    + destruct (Track.sends x !! i) as [s|] eqn:Hs.
      * destruct (proj2 (send_listener_returns t i (arg 0 args) w x s Hx Hs)) as [tr Htr].
        rewrite Htr. apply writeSub_frame.
      * unfold Track_sendVolumeListener, Track_emitEvent.
        rewrite (track_command _ _ _ _ Hx).
        unfold mbind at 1, M_bind, bind at 1.
        unfold mbind at 1, bind at 1, emit at 1.
        rewrite (track_command _ _ _ _ Hx). unfold emit.
        rewrite (track_command _ _ _ _ Hx), Hs. reflexivity.
    + unfold Track_sendVolumeListener, mbind, M_bind, bind, getTrack. now rewrite Hx.
Qed.

Lemma setNumScenes_frame t n w r :
  readField r (worldOf (Track_setNumScenes t n w)) = readField r w.
Proof.
  unfold Track_setNumScenes, modifyTrack, mbind, M_bind, bind, getTrack.
  destruct (trackHeap w !! t) as [x|] eqn:Hx; [|reflexivity]. simpl.
  destruct r as [f | u f | c f]; simpl; try reflexivity.
  destruct (decide (t = u)) as [->|Hne]; [|now rewrite list_lookup_insert_ne].
  rewrite list_lookup_insert_eq by (now apply lookup_lt_Some in Hx).
  rewrite Hx. simpl. now destruct f.
Qed.

Lemma Inv_refreshClips_world t w : Inv w -> worldOf (Track_refreshClips t w) = w.
Proof.
  intros HI. destruct (trackHeap w !! t) as [x|] eqn:Hx.
  - assert (Hne : Track.clips x <> []).
    { pose proof (Inv_track w t HI) as H. rewrite Hx in H.
      destruct (trackHeap OSC4Bitwig !! t) as [x0|] eqn:Hx0; [|discriminate].
      simpl in H. injection H as _ Hcl _ _. rewrite Hcl. clear Hcl.
      apply list_elem_of_lookup_2, list_elem_of_In in Hx0. revert x0 Hx0.
      apply Forall_forall. vm_compute. repeat constructor; discriminate. }
    now rewrite (refreshClips_raises _ _ _ Hx Hne).
  - unfold Track_refreshClips, mbind, M_bind, bind, getTrack. now rewrite Hx.
Qed.

(** ** Two messages on one address *)

(** Two messages in a row on an address wired to the listener of [r]: the
    trace of the pair is the change event of the first followed by that of
    the second, whose [prev] is the first's [value]. *)
Lemma two_messages_on_wired (a : string) (r : FieldRef) (v1 v2 : value) (w : World) :
  wired a r w ->
  exists w1 w2 tr1 tr2,
    deliver a [v1] w = Ret tt w1 tr1
    /\ deliver a [v2] w1 = Ret tt w2 tr2
    /\ (deliver a [v1] ;; deliver a [v2]) w = Ret tt w2 (tr1 ++ tr2)
    /\ tr1 <> [] /\ tr2 <> []
    /\ map eventKey tr1 = map eventKey tr2
    /\ Forall (fun e => isEmitted e = true /\ eventValue e = v1) tr1
    /\ Forall (fun e => isEmitted e = true /\ eventValue e = v2 /\ eventPrev e = v1) tr2.
Proof.
  intros Hw.
  assert (Hw1 : wired a r (writeField r v1 w)).
  { destruct Hw as [Hs Hl]. split; [now rewrite subscribers_writeField | now apply writeField_live]. }
  pose proof (deliver_entity_field a r [v1] w Hw) as H1.
  pose proof (deliver_entity_field a r [v2] _ Hw1) as H2.
  change (arg 0 [v1]) with v1 in H1, H2. change (arg 0 [v2]) with v2 in H2.
  rewrite (readField_writeField r v1 w (proj2 Hw)) in H2.
  eexists _, _, _, _. split; [exact H1|]. split; [exact H2|].
  split; [rewrite (bind_Ret _ _ _ _ _ _ H1); cbv beta; rewrite H2; reflexivity|].
  split; [now destruct r|]. split; [now destruct r|].
  split; [now destruct r|].
  split; apply changeEvents_Forall; intros em ev params Hv Hp; simpl; auto.
Qed.

(** ** The address [error] *)

Lemma fresh_error_unsubscribed : subscribers "error" OSC4Bitwig = [].
Proof. vm_compute. reflexivity. Qed.

Lemma Inv_error_unsubscribed w : Inv w -> subscribers "error" w = [].
Proof.
  intros HI. unfold subscribers. rewrite (proj1 (Inv_parts w HI)).
  exact fresh_error_unsubscribed.
Qed.

(** * The claims *)

(** C1, amended.  When the handler of an entity field runs on a message
    carrying [v], it returns; every event it emits carries [value = v] and
    [prev] equal to the field before the message, and an observer that reads
    the field back during the dispatch of the event finds that same previous
    value, the assignment coming after the emission; once the handler has
    returned the field holds [v].  ([fieldLive] holds of every entity field
    in every reachable world: [fresh_wiring], [Inv_wired].) *)
Theorem C1_emission_precedes_assignment (r : FieldRef) (args : list value) (w : World) :
  fieldLive r w ->
  exists w' tr,
    runListener (listenerOf r) args w = Ret tt w' tr
    /\ tr <> []
    /\ Forall (fun e => isEmitted e = true
                        /\ eventValue e = arg 0 args
                        /\ eventPrev e = readField r w
                        /\ observed r e = readField r w) tr
    /\ readField r w' = arg 0 args.
Proof.
  intros Hlive. eexists _, _. split; [now apply listener_spec|].
  split; [now destruct r|].
  split; [|now apply readField_writeField].
  apply changeEvents_Forall. intros em ev params Hv Hp. simpl. auto.
Qed.

Lemma C1_emission_precedes_assignment_witness :
  exists w' tr,
    runListener (SongL Song.playing_) [VNum 1] OSC4Bitwig = Ret tt w' tr
    /\ tr <> []
    /\ Forall (fun e => isEmitted e = true
                        /\ eventValue e = VNum 1
                        /\ eventPrev e = VNum 0
                        /\ observed (SongField Song.playing_) e = VNum 0) tr
    /\ readField (SongField Song.playing_) w' = VNum 1.
Proof.
  apply (C1_emission_precedes_assignment (SongField Song.playing_) [VNum 1] OSC4Bitwig).
  simpl. exact I.
Defined.

(** C1 as stated fails: on [/play 1] after construction the observer of the
    ['play'] event reads [song.playing] as 0 while the event says 1. *)
Lemma C1_counterexample :
  ~ Forall (fun e => observed (SongField Song.playing_) e = eventValue e)
           (traceOf (deliver "/play" [VNum 1] OSC4Bitwig)).
Proof.
  rewrite (deliver_entity_field "/play" (SongField Song.playing_)) by (split; reflexivity).
  simpl. intros H. apply Forall_inv in H. discriminate H.
Qed.

(** C2, at the failing input.  In every world the operations can reach from
    a fresh instance, on each Track and for every [n], [setNumScenes(n)]
    returns with [numScenes = n], and [refreshClips()] then raises a
    TypeError at the first [clip.destroy()]: nothing is detached, the clip
    collection is still the one the constructor built, no Clip is
    constructed and no clip-info request is sent. *)
Theorem C2_refreshClips_raises_at_destroy (w : World) (t : nat) (n : Z) :
  reachable w ->
  In t (Song.tracks (song OSC4Bitwig)) ->
  exists w1,
    Track_setNumScenes t n w = Ret tt w1 []
    /\ (Track.numScenes <$> trackHeap w1 !! t) = Some (Some n)
    /\ Track_refreshClips t w1
       = Throw (TypeError "clip.destroy is not a function") w1 []
    /\ (Track.clips <$> trackHeap w1 !! t) = (Track.clips <$> trackHeap OSC4Bitwig !! t).
Proof.
  intros Hreach Ht.
  destruct (Inv_fresh_track w t (reachable_Inv w Hreach) Ht) as (x & Hx & Hne & _ & _ & _ & Hcl).
  eexists. split; [unfold Track_setNumScenes; apply (modifyTrack_Some _ _ _ _ Hx)|].
  assert (Hx1 : trackHeap (set_trackHeap (<[t:=Track.set_numScenes (Some n) x]> (trackHeap w)) w) !! t
                = Some (Track.set_numScenes (Some n) x)).
  { simpl. apply list_lookup_insert_eq. now apply lookup_lt_Some in Hx. }
  split; [now rewrite Hx1|].
  split; [apply (refreshClips_raises _ _ _ Hx1 Hne)|].
  rewrite Hx1, Hcl. reflexivity.
Qed.

Lemma C2_refreshClips_raises_at_destroy_witness :
  exists w1,
    Track_setNumScenes 0 3 OSC4Bitwig = Ret tt w1 []
    /\ (Track.numScenes <$> trackHeap w1 !! O) = Some (Some 3)
    /\ Track_refreshClips 0 w1
       = Throw (TypeError "clip.destroy is not a function") w1 []
    /\ (Track.clips <$> trackHeap w1 !! O) = (Track.clips <$> trackHeap OSC4Bitwig !! O).
Proof.
  apply (C2_refreshClips_raises_at_destroy OSC4Bitwig 0 3).
  - exists []. reflexivity.
  - vm_compute. left. reflexivity.
Defined.

(** C3, amended.  A message on the address of a sub-field returns and
    assigns the sub-field directly.  For a device parameter ([name] or
    [value]) nothing is emitted.  For a send ([name] or [volume]) the message
    also emits ['sendName'] / ['sendVolume'] on the Track's registry and
    ['track:sendName'] / ['track:sendVolume'] on the Song's, each carrying
    the payload as [value]. *)
Theorem C3_subfield_updates (a : string) (s : SubField) (args : list value) (w : World) :
  subscribers a w = [subListener s] -> subLive s w ->
  exists tr,
    deliver a args w = Ret tt (writeSub s (arg 0 args) w) tr
    /\ match s with
       | FxName _ | FxValue _ => tr = []
       | SendName t _ =>
           map eventKey tr
           = [(Some (TrackEmitter t), "sendName"); (Some SongEmitter, "track:sendName")]
           /\ Forall (fun e => eventValue e = arg 0 args) tr
       | SendVolume t _ =>
           map eventKey tr
           = [(Some (TrackEmitter t), "sendVolume"); (Some SongEmitter, "track:sendVolume")]
           /\ Forall (fun e => eventValue e = arg 0 args) tr
       end.
Proof.
  intros Hsub Hlive. rewrite (deliver_single _ _ _ _ Hsub).
  destruct s as [i | i | t i | t i]; simpl in *.
  - destruct Hlive as [p Hp]. eexists. split; [apply (fx_listener_spec _ _ _ _ Hp) | reflexivity].
  - destruct Hlive as [p Hp]. eexists. split; [apply (fx_listener_spec _ _ _ _ Hp) | reflexivity].
  - destruct (trackHeap w !! t) as [x|] eqn:Hx; [|contradiction]. destruct Hlive as [s Hs].
    destruct (proj1 (send_listener_returns t i (arg 0 args) w x s Hx Hs)) as [tr Htr].
    exists tr. split; [exact Htr|].
    pose proof (sendName_trace t i (arg 0 args) w x Hx) as Ht.
    rewrite Htr in Ht. simpl in Ht. subst tr. split; [reflexivity | repeat constructor].
  - destruct (trackHeap w !! t) as [x|] eqn:Hx; [|contradiction]. destruct Hlive as [s Hs].
    destruct (proj2 (send_listener_returns t i (arg 0 args) w x s Hx Hs)) as [tr Htr].
    exists tr. split; [exact Htr|].
    pose proof (sendVolume_trace t i (arg 0 args) w x Hx) as Ht.
    rewrite Htr in Ht. simpl in Ht. subst tr. split; [reflexivity | repeat constructor].
Qed.

Lemma C3_subfield_updates_witness :
  exists tr,
    deliver "/fxparam/1/name" [VStr "Cutoff"] OSC4Bitwig
    = Ret tt (writeSub (FxName 0) (VStr "Cutoff") OSC4Bitwig) tr
    /\ tr = [].
Proof.
  apply (C3_subfield_updates "/fxparam/1/name" (FxName 0) [VStr "Cutoff"] OSC4Bitwig).
  - vm_compute. reflexivity.
  - vm_compute. eauto.
Defined.

(** C3 as stated fails for sends: a send-name message after construction
    does emit. *)
Lemma C3_counterexample :
  Exists (fun e => isEmitted e = true)
         (traceOf (deliver "/track/1/send/0/name" [VStr "Reverb"] OSC4Bitwig)).
Proof. vm_compute. left. reflexivity. Qed.

(** C4.  [setVolume(64)] on the Track whose id is 3 hands out exactly one
    message, to [/track/3/volume], with the single argument
    [{type: 'integer', value: 64}]; [launch()] on the Clip whose id is 0 and
    whose Track has id 2 hands out exactly one message, to
    [/track/2/clip/1/launch], with no argument. *)
Theorem C4_volume_and_launch_on_the_wire
    (w : World) (t : nat) (x : Track.t) (c : nat) (cl : Clip.t) (y : Track.t) :
  trackHeap w !! t = Some x -> Track.id x = 3 ->
  clipHeap w !! c = Some cl -> Clip.id cl = 0 ->
  trackHeap w !! Clip.track cl = Some y -> Track.id y = 2 ->
  Track_setVolume t (VNum 64) w
  = Ret tt w [Sent "/track/3/volume" [Typed "integer" (VNum 64)]]
  /\ Clip_launch c w = Ret tt w [Sent "/track/2/clip/1/launch" []].
Proof.
  intros Hx Hxid Hc Hcid Hy Hyid. split.
  - unfold Track_setVolume. rewrite (track_command _ _ _ _ Hx), Hxid. reflexivity.
  - unfold Clip_launch.
    rewrite (bind_silent _ _ _ _ _ (getClip_Some _ _ _ Hc)).
    rewrite (track_command _ _ _ _ Hy), Hyid, Hcid. reflexivity.
Qed.

Lemma C4_volume_and_launch_on_the_wire_witness :
  Track_setVolume 2 (VNum 64) OSC4Bitwig
  = Ret tt OSC4Bitwig [Sent "/track/3/volume" [Typed "integer" (VNum 64)]]
  /\ Clip_launch 8 OSC4Bitwig = Ret tt OSC4Bitwig [Sent "/track/2/clip/1/launch" []].
Proof.
  apply (C4_volume_and_launch_on_the_wire OSC4Bitwig 2
           (Track.mk 3 [16; 17; 18; 19; 20; 21; 22; 23]%nat
              (replicate 6 (mkSend (VStr "") (VNum 0)))
              (VNum 0) (VNum 0) (VBool false) (VNum 0) (VNum 0) (VNum 0) VUndef VUndef None)
           8
           (Clip.mk 1 0 (VNum 0) (VBool false) (VBool false) (VBool false) (VBool false)
              (VBool false))
           (Track.mk 2 [8; 9; 10; 11; 12; 13; 14; 15]%nat
              (replicate 6 (mkSend (VStr "") (VNum 0)))
              (VNum 0) (VNum 0) (VBool false) (VNum 0) (VNum 0) (VNum 0) VUndef VUndef None));
    reflexivity.
Defined.

(** C5, amended.  In every world the operations can reach from a fresh
    instance, one message on the address of any entity field with a
    registered listener returns, changes that field to the payload and no
    other field, and emits the change event carrying the payload as [value]
    and the field's value before the message (its initial value, the first
    time) as [prev]: for a Track or Clip field once on the entity's own
    registry and once on the Song's under [track:<name>] or [clip:<name>];
    for a field of the Song exactly once, on the Song's registry, under the
    listener's bare event name. *)
Theorem C5_one_message_on_a_field (w : World) (r : FieldRef) (args : list value) :
  reachable w ->
  In r (entityFields OSC4Bitwig) ->
  deliver (wireAddress r OSC4Bitwig) args w
  = Ret tt (writeField r (arg 0 args) w) (changeEvents r (arg 0 args) (readField r w) w)
  /\ readField r (writeField r (arg 0 args) w) = arg 0 args
  /\ (forall r', r <> r' -> readField r' (writeField r (arg 0 args) w) = readField r' w).
Proof.
  intros Hreach Hin.
  pose proof (Inv_wired _ r w (reachable_Inv w Hreach)
                (proj1 (Forall_forall _ _) fresh_wiring r Hin)) as Hw.
  split; [now apply deliver_entity_field|].
  split; [apply readField_writeField, Hw | intros r' Hne; now apply readField_writeField_ne].
Qed.

Lemma C5_one_message_on_a_field_witness :
  deliver "/track/3/volume" [VNum 5] OSC4Bitwig
  = Ret tt (writeField (TrackField 2 Track.volume_) (VNum 5) OSC4Bitwig)
        [Emitted (TrackEmitter 2) "volume" [("value", VNum 5); ("prev", VNum 0)] OSC4Bitwig;
         Emitted SongEmitter "track:volume"
                 [("id", VNum 3); ("value", VNum 5); ("prev", VNum 0)] OSC4Bitwig]
  /\ readField (TrackField 2 Track.volume_)
               (writeField (TrackField 2 Track.volume_) (VNum 5) OSC4Bitwig) = VNum 5
  /\ (forall r', TrackField 2 Track.volume_ <> r' ->
        readField r' (writeField (TrackField 2 Track.volume_) (VNum 5) OSC4Bitwig)
        = readField r' OSC4Bitwig).
Proof.
  apply (C5_one_message_on_a_field OSC4Bitwig (TrackField 2 Track.volume_) [VNum 5]).
  - exists []. reflexivity.
  - apply list_elem_of_In, (bool_decide_unpack _). vm_compute. exact I.
Defined.

(** C5 as stated fails for the fields of the Song: [/play 1] puts a single
    event on the Song's registry, and its name carries no namespace. *)
Lemma C5_counterexample :
  length (filter (fun e => emittedOn SongEmitter e = true)
                 (traceOf (deliver "/play" [VNum 1] OSC4Bitwig))) = 1%nat
  /\ ~ Exists (fun e => hasNamespace (eventName e) = true)
              (traceOf (deliver "/play" [VNum 1] OSC4Bitwig)).
Proof.
  rewrite (deliver_entity_field "/play" (SongField Song.playing_)) by (split; reflexivity).
  split; [reflexivity|].
  intros H. apply Exists_cons in H. destruct H as [H | H]; [discriminate H | inversion H].
Qed.

(** C6, at the failing input.  In every world the operations can reach from
    a fresh instance, two messages [v1], [v2] delivered in that order on the
    address of an entity field with a registered listener both return; the
    trace of the pair is the change event of [v1] followed by the change
    event of [v2] (each on the same registries under the same names), and
    every emission of the second carries [prev = v1], the [value] of the
    first.  On the address of a Track's [name] it is otherwise:
    [nameListener] is never handed to the receiver, so both messages are
    dropped, the pair produces no event at all, and the [name] is undefined
    as before. *)
Theorem C6_track_name_messages_emit_nothing
    (w : World) (r : FieldRef) (t : nat) (v1 v2 : value) :
  reachable w ->
  In r (entityFields OSC4Bitwig) ->
  In t (Song.tracks (song OSC4Bitwig)) ->
  (exists w1 w2 tr1 tr2,
     deliver (wireAddress r OSC4Bitwig) [v1] w = Ret tt w1 tr1
     /\ deliver (wireAddress r OSC4Bitwig) [v2] w1 = Ret tt w2 tr2
     /\ (deliver (wireAddress r OSC4Bitwig) [v1] ;;
         deliver (wireAddress r OSC4Bitwig) [v2]) w = Ret tt w2 (tr1 ++ tr2)
     /\ tr1 <> [] /\ tr2 <> []
     /\ map eventKey tr1 = map eventKey tr2
     /\ Forall (fun e => isEmitted e = true /\ eventValue e = v1) tr1
     /\ Forall (fun e => isEmitted e = true /\ eventValue e = v2 /\ eventPrev e = v1) tr2)
  /\ (deliver (wireAddress (TrackField t Track.name_) OSC4Bitwig) [v1] ;;
      deliver (wireAddress (TrackField t Track.name_) OSC4Bitwig) [v2]) w
     = Ret tt w []
  /\ readField (TrackField t Track.name_) w = VUndef.
Proof.
  intros Hreach Hin Ht. pose proof (reachable_Inv w Hreach) as HI.
  split.
  { apply (two_messages_on_wired _ r).
    exact (Inv_wired _ r w HI (proj1 (Forall_forall _ _) fresh_wiring r Hin)). }
  destruct (Inv_fresh_track w t HI Ht) as (x & Hx & _ & Hn & Hid & Hs & _).
  assert (Hd : forall v,
             deliver (wireAddress (TrackField t Track.name_) OSC4Bitwig) [v] w = Ret tt w []).
  { intros v. apply deliver_unsubscribed; [exact Hs | discriminate]. }
  split.
  - rewrite (bind_Ret _ _ _ _ _ _ (Hd v1)). cbv beta. now rewrite (Hd v2).
  - simpl. now rewrite Hx.
Qed.

Lemma C6_track_name_messages_emit_nothing_witness :
  (exists w1 w2 tr1 tr2,
     deliver "/track/1/slot/0/isPlaying" [VBool true] OSC4Bitwig = Ret tt w1 tr1
     /\ deliver "/track/1/slot/0/isPlaying" [VBool false] w1 = Ret tt w2 tr2
     /\ (deliver "/track/1/slot/0/isPlaying" [VBool true] ;;
         deliver "/track/1/slot/0/isPlaying" [VBool false]) OSC4Bitwig
        = Ret tt w2 (tr1 ++ tr2)
     /\ tr1 <> [] /\ tr2 <> []
     /\ map eventKey tr1 = map eventKey tr2
     /\ Forall (fun e => isEmitted e = true /\ eventValue e = VBool true) tr1
     /\ Forall (fun e => isEmitted e = true /\ eventValue e = VBool false
                         /\ eventPrev e = VBool true) tr2)
  /\ (deliver "/track/1/name" [VStr "Bass"] ;; deliver "/track/1/name" [VStr "Lead"])
       OSC4Bitwig
     = Ret tt OSC4Bitwig []
  /\ readField (TrackField 0 Track.name_) OSC4Bitwig = VUndef.
Proof.
  split.
  - apply (C6_track_name_messages_emit_nothing OSC4Bitwig (ClipField 0 Clip.isPlaying_) 0%nat
             (VBool true) (VBool false)).
    + exists []. reflexivity.
    + apply list_elem_of_In, (bool_decide_unpack _). vm_compute. exact I.
    + vm_compute. left. reflexivity.
  - apply (C6_track_name_messages_emit_nothing OSC4Bitwig (ClipField 0 Clip.isPlaying_) 0%nat
             (VStr "Bass") (VStr "Lead")).
    + exists []. reflexivity.
    + apply list_elem_of_In, (bool_decide_unpack _). vm_compute. exact I.
    + vm_compute. left. reflexivity.
Defined.

(** C7.  Each of the twenty-one outbound commands, called on an existing
    object, returns, leaves the whole world (every field of every entity)
    as it was, and hands exactly one message to the OSC emitter. *)
Theorem C7_commands_only_send (cmd : Command) (w : World) :
  receiverLive cmd w ->
  exists a args, runCommand cmd w = Ret tt w [Sent a args].
Proof.
  destruct cmd; simpl; intros Hlive.
  1-3, 6-12: eexists _, _; reflexivity.
  1: unfold Song_loop; destruct (truthy forceOn); eexists _, _; reflexivity.
  1: unfold Song_setClick; destruct (truthy state); eexists _, _; reflexivity.
  1-8: destruct Hlive as [x Hx]; eexists _, _;
       unfold Track_setName, Track_setRecarm, Track_setSolo, Track_setMute,
         Track_setVolume, Track_setPan, Track_setSendName, Track_view;
       rewrite (track_command _ _ _ _ Hx); reflexivity.
  unfold clipLive in Hlive.
  destruct (clipHeap w !! c) as [cl|] eqn:Hc; [|contradiction].
  destruct Hlive as [x Hx]. eexists _, _. unfold Clip_launch.
  rewrite (bind_silent _ _ _ _ _ (getClip_Some _ _ _ Hc)).
  rewrite (track_command _ _ _ _ Hx). reflexivity.
Qed.

Lemma C7_commands_only_send_witness :
  exists a args,
    runCommand (TrackSetPan 4 (VNum 10)) OSC4Bitwig = Ret tt OSC4Bitwig [Sent a args].
Proof.
  apply (C7_commands_only_send (TrackSetPan 4 (VNum 10)) OSC4Bitwig).
  simpl. unfold trackLive. vm_compute. eauto.
Defined.

(** C8.  The constructors give the Tracks the ids 1 to 8 and the Clips of
    each Track the ids 0 to 7; and from any world, after any sequence of
    inbound messages, outbound commands, [setNumScenes] and [refreshClips]
    calls (each returning or raising), every Track has the id it had and
    every Clip that existed has the id it had. *)
Theorem C8_ids_never_change (ops : list Op) (w : World) :
  trackIds OSC4Bitwig = [1; 2; 3; 4; 5; 6; 7; 8]
  /\ Forall (fun x => map (fun c => clipIdAt c OSC4Bitwig) (Track.clips x)
                     = [0; 1; 2; 3; 4; 5; 6; 7])
            (trackHeap OSC4Bitwig)
  /\ trackIds (run ops w) = trackIds w
  /\ clipIds w `prefix_of` clipIds (run ops w).
Proof.
  split; [reflexivity|]. split; [vm_compute; repeat constructor|].
  apply run_idsKept.
Qed.

(** C9.  Whatever the send slot holds, the two emissions of a send-name
    message carry as [prev] the [name] of the Track, and those of a
    send-volume message the [volume] of the Track, as found in the world at
    the time of the emission. *)
Theorem C9_send_prev_is_track_field (t i : nat) (args : list value) (w : World) (x : Track.t) :
  trackHeap w !! t = Some x ->
  traceOf (runListener (SendNameL t i) args w)
  = sendEvents "sendName" t i (arg 0 args) (Track.name x) w
  /\ traceOf (runListener (SendVolumeL t i) args w)
     = sendEvents "sendVolume" t i (arg 0 args) (Track.volume x) w.
Proof.
  intros Hx. split; simpl; [now apply sendName_trace | now apply sendVolume_trace].
Qed.

Lemma C9_send_prev_is_track_field_witness :
  let w1 := worldOf (deliver "/track/1/send/0/name" [VStr "A"] OSC4Bitwig) in
  traceOf (runListener (SendNameL 0 0) [VStr "B"] w1)
  = sendEvents "sendName" 0 0 (VStr "B") VUndef w1
  /\ traceOf (runListener (SendVolumeL 0 0) [VStr "B"] w1)
     = sendEvents "sendVolume" 0 0 (VStr "B") (VNum 0) w1.
Proof.
  exact (C9_send_prev_is_track_field 0 0 [VStr "B"]
           (worldOf (deliver "/track/1/send/0/name" [VStr "A"] OSC4Bitwig))
           (Track.mk 1 [0; 1; 2; 3; 4; 5; 6; 7]%nat
              (mkSend (VStr "A") (VNum 0) :: replicate 5 (mkSend (VStr "") (VNum 0)))
              (VNum 0) (VNum 0) (VBool false) (VNum 0) (VNum 0) (VNum 0) VUndef VUndef None)
           eq_refl).
Defined.

(** C10, at the failing input.  [nameListener] is never handed to the
    receiver: in every world the operations can reach from a fresh instance,
    a message on [/track/<id>/name], for the id of any Track, reaches no
    handler, emits nothing and changes nothing, and the Track's [name] is
    still undefined. *)
Theorem C10_track_name_message_is_dropped (w : World) (t : nat) (args : list value) :
  reachable w ->
  In t (Song.tracks (song OSC4Bitwig)) ->
  deliver ("/track/" +:+ string_of_Z (trackIdAt t w) +:+ "/name") args w = Ret tt w []
  /\ readField (TrackField t Track.name_) w = VUndef.
Proof.
  intros Hreach Ht.
  destruct (Inv_fresh_track w t (reachable_Inv w Hreach) Ht) as (x & Hx & _ & Hn & Hid & Hs & _).
  split; [apply deliver_unsubscribed; [now rewrite Hid | discriminate]|].
  simpl. now rewrite Hx.
Qed.

Lemma C10_track_name_message_is_dropped_witness :
  deliver "/track/1/name" [VStr "Bass"] OSC4Bitwig = Ret tt OSC4Bitwig []
  /\ readField (TrackField 0 Track.name_) OSC4Bitwig = VUndef.
Proof.
  apply (C10_track_name_message_is_dropped OSC4Bitwig 0 [VStr "Bass"]).
  - exists []. reflexivity.
  - vm_compute. left. reflexivity.
Defined.

(** * Further properties *)

(** X1.  No operation ever removes or reorders a subscription: from any
    world, after any sequence of inbound messages, commands, [setNumScenes]
    and [refreshClips] calls, the receiver still holds every handler it held,
    in place; handlers registered since come after. *)
Theorem X1_subscriptions_are_never_removed (ops : list Op) (w : World) :
  receiver w `prefix_of` receiver (run ops w).
Proof. apply (run_grows ops w). Qed.

(** X2.  [song.selectedTrack] has no listener and no setter: it is 0 after
    construction and no sequence of operations, from any world, changes
    it. *)
Theorem X2_selectedTrack_is_never_updated (ops : list Op) (w : World) :
  Song.selectedTrack (song OSC4Bitwig) = VNum 0
  /\ Song.selectedTrack (song (run ops w)) = Song.selectedTrack (song w).
Proof. split; [reflexivity | apply (run_grows ops w)]. Qed.

(** X3.  The containers are fixed: from any world, no sequence of operations
    replaces [song.tracks], changes the number of device parameters or the
    number of sends of any Track, or changes the owner of an existing
    Clip. *)
Theorem X3_containers_are_fixed (ops : list Op) (w : World) :
  Song.tracks (song (run ops w)) = Song.tracks (song w)
  /\ length (Song.fxparams (song (run ops w))) = length (Song.fxparams (song w))
  /\ map (fun x => length (Track.sends x)) (trackHeap (run ops w))
     = map (fun x => length (Track.sends x)) (trackHeap w)
  /\ map Clip.track (clipHeap w) `prefix_of` map Clip.track (clipHeap (run ops w)).
Proof.
  destruct (run_grows ops w) as (_ & _ & Ht & Hf & Hs & Hc).
  split; [exact Ht|]. split; [exact Hf|]. split.
  - assert (E : forall h, map (fun x => length (Track.sends x)) h = map snd (map trackFixed h))
      by (intros h; now rewrite map_map).
    now rewrite !E, Hs.
  - destruct Hc as [k Hk]. exists (map fst k).
    assert (E : forall h, map Clip.track h = map fst (map clipShape h))
      by (intros h; now rewrite map_map).
    now rewrite !E, Hk, map_app.
Qed.

(** X4.  In every world the operations can reach from a fresh instance the
    receiver holds exactly the 561 handlers construction registered, on 561
    distinct addresses: a message is handed to at most one handler. *)
Theorem X4_one_handler_per_address (w : World) (a : string) :
  reachable w ->
  receiver w = receiver OSC4Bitwig
  /\ length (receiver w) = 561%nat
  /\ (length (subscribers a w) <= 1)%nat.
Proof.
  intros Hr. pose proof (reachable_Inv w Hr) as HI.
  split; [apply (Inv_parts w HI)|]. split; [now rewrite (proj1 (Inv_parts w HI))|].
  now apply Inv_one_handler.
Qed.

Lemma X4_one_handler_per_address_witness :
  receiver (run [OpDeliver "/play" [VNum 1]] OSC4Bitwig) = receiver OSC4Bitwig
  /\ length (receiver (run [OpDeliver "/play" [VNum 1]] OSC4Bitwig)) = 561%nat
  /\ (length (subscribers "/play" (run [OpDeliver "/play" [VNum 1]] OSC4Bitwig)) <= 1)%nat.
Proof.
  apply (X4_one_handler_per_address (run [OpDeliver "/play" [VNum 1]] OSC4Bitwig) "/play").
  exists [OpDeliver "/play" [VNum 1]]. reflexivity.
Defined.

(** X5.  The tree of objects is the one construction built, in every
    reachable world: [song.tracks] holds eight Tracks and [song.fxparams]
    eight slots; the Track at index [t] has the id [t + 1], six sends and
    eight Clips; and the Clip at index [j] of its collection has the id [j]
    and points back to that Track. *)
Theorem X5_object_tree_is_fixed (w : World) (t : nat) :
  reachable w ->
  In t (Song.tracks (song w)) ->
  Song.tracks (song w) = seq 0 8
  /\ length (Song.fxparams (song w)) = 8%nat
  /\ exists x,
       trackHeap w !! t = Some x
       /\ Track.id x = Z.of_nat t + 1
       /\ length (Track.sends x) = 6%nat
       /\ length (Track.clips x) = 8%nat
       /\ forall j c, Track.clips x !! j = Some c ->
            exists cl, clipHeap w !! c = Some cl
                       /\ Clip.track cl = t /\ Clip.id cl = Z.of_nat j.
Proof.
  intros Hr Ht. pose proof (reachable_Inv w Hr) as HI.
  rewrite (Inv_tracks w HI) in Ht |- *.
  split; [reflexivity|]. split; [now apply Inv_fxparams|].
  assert (Ht8 : (t < 8)%nat) by (change (In t (seq 0 8)) in Ht; apply in_seq in Ht; lia).
  destruct (Inv_track_at w t HI Ht8) as (x & Hx & Hid & Hs6 & _ & Hc8 & Hcl).
  exists x. repeat (split; [assumption|]).
  intros j c Hj. rewrite Hcl in Hj. now apply (Inv_clip_at w t j c HI Ht8).
Qed.

Lemma X5_object_tree_is_fixed_witness :
  Song.tracks (song OSC4Bitwig) = seq 0 8
  /\ length (Song.fxparams (song OSC4Bitwig)) = 8%nat
  /\ exists x,
       trackHeap OSC4Bitwig !! 3%nat = Some x
       /\ Track.id x = Z.of_nat 3 + 1
       /\ length (Track.sends x) = 6%nat
       /\ length (Track.clips x) = 8%nat
       /\ forall j c, Track.clips x !! j = Some c ->
            exists cl, clipHeap OSC4Bitwig !! c = Some cl
                       /\ Clip.track cl = 3%nat /\ Clip.id cl = Z.of_nat j.
Proof.
  apply (X5_object_tree_is_fixed OSC4Bitwig 3).
  - exists []. reflexivity.
  - vm_compute. do 3 right. left. reflexivity.
Defined.

(** X6.  Which inbound messages raise.  In every reachable world a message
    on any address but [error], with any arguments, is handled without an
    exception; the dispatch emits at most two events and never sends
    anything to the OSC emitter.  A message on the address [error], which no
    handler is ever registered on, raises from the receiver, with nothing
    changed and nothing emitted. *)
Theorem X6_inbound_dispatch_raises_only_on_error
    (w : World) (a : string) (args : list value) :
  reachable w ->
  if String.eqb a "error"
  then deliver a args w = Throw UnhandledError w []
  else exists w' tr,
         deliver a args w = Ret tt w' tr
         /\ Forall (fun e => isEmitted e = true) tr
         /\ (length tr <= 2)%nat.
Proof.
  intros Hr. pose proof (reachable_Inv w Hr) as HI.
  destruct (String.eqb a "error") eqn:Ha.
  { apply String.eqb_eq in Ha. subst a.
    apply deliver_unheard_error. now apply Inv_error_unsubscribed. }
  apply String.eqb_neq in Ha.
  pose proof (Inv_one_handler a w HI) as Hone.
  destruct (subscribers a w) as [|l [|l' ls]] eqn:Hs.
  - exists w, []. split; [now apply deliver_unsubscribed|]. split; [constructor | simpl; lia].
  - rewrite (deliver_single a l args w Hs).
    apply runListener_returns, (Inv_subscriber_live a l w HI). rewrite Hs. now left.
  - simpl in Hone. lia.
Qed.

Lemma X6_inbound_dispatch_raises_only_on_error_witness :
  deliver "error" [VStr "x"] OSC4Bitwig = Throw UnhandledError OSC4Bitwig []
  /\ exists w' tr,
       deliver "/track/1/send/5/volume" [] OSC4Bitwig = Ret tt w' tr
       /\ Forall (fun e => isEmitted e = true) tr
       /\ (length tr <= 2)%nat.
Proof.
  split.
  - apply (X6_inbound_dispatch_raises_only_on_error OSC4Bitwig "error" [VStr "x"]).
    exists []. reflexivity.
  - apply (X6_inbound_dispatch_raises_only_on_error OSC4Bitwig "/track/1/send/5/volume" []).
    exists []. reflexivity.
Defined.

(** X7.  Device parameters are 1-indexed on the wire: in every reachable
    world, for [i] below 8, a message on [/fxparam/(i+1)/name] (resp.
    [/value]) returns, emits nothing, and stores its first argument in
    [song.fxparams[i].name] (resp. [.value]), which then reads back; no
    mirrored field of any entity changes. *)
Theorem X7_device_parameter_addresses (w : World) (i : nat) (args : list value) :
  reachable w -> (i < 8)%nat ->
  deliver (fxAddress i "name") args w = Ret tt (writeSub (FxName i) (arg 0 args) w) []
  /\ deliver (fxAddress i "value") args w = Ret tt (writeSub (FxValue i) (arg 0 args) w) []
  /\ (fx_name <$> Song.fxparams (song (writeSub (FxName i) (arg 0 args) w)) !! i)
     = Some (arg 0 args)
  /\ (fx_value <$> Song.fxparams (song (writeSub (FxValue i) (arg 0 args) w)) !! i)
     = Some (arg 0 args)
  /\ (forall r s, readField r (writeSub s (arg 0 args) w) = readField r w).
Proof.
  intros Hr Hi. pose proof (reachable_Inv w Hr) as HI.
  pose proof (proj1 (forallb_forall _ _) fresh_fx_wiring i (in_seq_0 8 i Hi)) as H0.
  unfold freshFxWiring in H0. apply andb_prop in H0. destruct H0 as [Hn Hv].
  apply bool_decide_eq_true_1 in Hn, Hv.
  rewrite <- (Inv_subscribers (fxAddress i "name") w HI) in Hn.
  rewrite <- (Inv_subscribers (fxAddress i "value") w HI) in Hv.
  assert (Hp : is_Some (Song.fxparams (song w) !! i))
    by (apply lookup_lt_is_Some; now rewrite (Inv_fxparams w HI)).
  destruct Hp as [p Hp].
  rewrite (deliver_single _ _ args w Hn), (deliver_single _ _ args w Hv). simpl runListener.
  split; [apply (fx_listener_spec _ _ _ _ Hp)|].
  split; [apply (fx_listener_spec _ _ _ _ Hp)|].
  split; [simpl; now rewrite list_lookup_alter_eq, Hp|].
  split; [simpl; now rewrite list_lookup_alter_eq, Hp|].
  intros r s. apply writeSub_frame.
Qed.

Lemma X7_device_parameter_addresses_witness :
  deliver "/fxparam/8/name" [VStr "Cutoff"] OSC4Bitwig
  = Ret tt (writeSub (FxName 7) (VStr "Cutoff") OSC4Bitwig) []
  /\ deliver "/fxparam/8/value" [VStr "Cutoff"] OSC4Bitwig
     = Ret tt (writeSub (FxValue 7) (VStr "Cutoff") OSC4Bitwig) []
  /\ (fx_name <$> Song.fxparams (song (writeSub (FxName 7) (VStr "Cutoff") OSC4Bitwig)) !! 7%nat)
     = Some (VStr "Cutoff")
  /\ (fx_value <$> Song.fxparams (song (writeSub (FxValue 7) (VStr "Cutoff") OSC4Bitwig)) !! 7%nat)
     = Some (VStr "Cutoff")
  /\ (forall r s, readField r (writeSub s (VStr "Cutoff") OSC4Bitwig) = readField r OSC4Bitwig).
Proof.
  apply (X7_device_parameter_addresses OSC4Bitwig 7 [VStr "Cutoff"]).
  - exists []. reflexivity.
  - lia.
Defined.

(** X8.  Tracks are 1-indexed on the wire: in every reachable world, for
    [t] below 8 and each of the seven registered fields, a message on
    [/track/(t+1)/<field>] returns, stores its first argument in that field
    of [song.tracks[t]], and emits [{value, prev}] on that Track's registry
    and then [{id: t+1, value, prev}] on the Song's under [track:<field>],
    [prev] being the field as it was. *)
Theorem X8_track_field_addresses (w : World) (t : nat) (f : Track.field) (args : list value) :
  reachable w -> (t < 8)%nat -> In f Track.registered ->
  deliver (trackAddress t (Track.evname f)) args w
  = Ret tt (writeField (TrackField t f) (arg 0 args) w)
        [Emitted (TrackEmitter t) (Track.evname f)
                 [("value", arg 0 args); ("prev", readField (TrackField t f) w)] w;
         Emitted SongEmitter ("track:" +:+ Track.evname f)
                 [("id", VNum (Z.of_nat t + 1)); ("value", arg 0 args);
                  ("prev", readField (TrackField t f) w)] w].
Proof.
  intros Hr Ht Hf. pose proof (reachable_Inv w Hr) as HI.
  destruct (fresh_track_wiring_at t Ht) as (Hfields & _ & _).
  destruct (Inv_track_at w t HI Ht) as (x & Hx & _).
  assert (Hw : wired (trackAddress t (Track.evname f)) (TrackField t f) w).
  { split; [rewrite (Inv_subscribers _ w HI); now apply Hfields | now exists x]. }
  rewrite (deliver_entity_field _ _ args w Hw). simpl changeEvents.
  now rewrite (Inv_trackIdAt w t HI Ht).
Qed.

Lemma X8_track_field_addresses_witness :
  deliver "/track/8/vu" [VNum 42] OSC4Bitwig
  = Ret tt (writeField (TrackField 7 Track.vu_) (VNum 42) OSC4Bitwig)
        [Emitted (TrackEmitter 7) "vu" [("value", VNum 42); ("prev", VUndef)] OSC4Bitwig;
         Emitted SongEmitter "track:vu"
                 [("id", VNum 8); ("value", VNum 42); ("prev", VUndef)] OSC4Bitwig].
Proof.
  apply (X8_track_field_addresses OSC4Bitwig 7 Track.vu_ [VNum 42]).
  - exists []. reflexivity.
  - lia.
  - simpl. auto 10.
Defined.

(** X9.  Slots are 0-indexed on the wire: in every reachable world, for [t]
    and [j] below 8, the addresses [/track/(t+1)/slot/j/<field>] reach the
    Clip at index [j] of the collection of [song.tracks[t]]: a message
    returns, stores its first argument in that field of that Clip, and emits
    [{value, prev}] on the Clip's registry and then
    [{id: j, trackId: t+1, value, prev}] on the Song's under
    [clip:<field>]. *)
Theorem X9_clip_slot_addresses (w : World) (t j : nat) :
  reachable w -> (t < 8)%nat -> (j < 8)%nat ->
  exists c,
    clipAt t j w = Some c
    /\ forall (f : Clip.field) (args : list value),
         deliver (slotAddress t j (Clip.name f)) args w
         = Ret tt (writeField (ClipField c f) (arg 0 args) w)
               [Emitted (ClipEmitter c) (Clip.name f)
                        [("value", arg 0 args); ("prev", readField (ClipField c f) w)] w;
                Emitted SongEmitter ("clip:" +:+ Clip.name f)
                        [("id", VNum (Z.of_nat j)); ("trackId", VNum (Z.of_nat t + 1));
                         ("value", arg 0 args); ("prev", readField (ClipField c f) w)] w].
Proof.
  intros Hr Ht Hj. pose proof (reachable_Inv w Hr) as HI.
  destruct (fresh_track_wiring_at t Ht) as (_ & _ & Hslots).
  destruct (Hslots j Hj) as (c & Hc & Hsub).
  destruct (Inv_track_at w t HI Ht) as (x & Hx & _ & _ & _ & _ & Hcl).
  destruct (Inv_clip_at w t j c HI Ht Hc) as (cl & Hcl' & Hown & Hid).
  exists c. split; [unfold clipAt; rewrite Hx; simpl; now rewrite Hcl|].
  intros f args.
  assert (Hw : wired (slotAddress t j (Clip.name f)) (ClipField c f) w).
  { split; [rewrite (Inv_subscribers _ w HI); apply Hsub|].
    simpl. unfold clipLive. rewrite Hcl', Hown. now exists x. }
  rewrite (deliver_entity_field _ _ args w Hw). simpl changeEvents.
  unfold clipIdAt, clipTrackAt. simpl readField. rewrite !Hcl'. simpl from_option.
  now rewrite Hown, Hid, (Inv_trackIdAt w t HI Ht).
Qed.

Lemma X9_clip_slot_addresses_witness :
  exists c,
    clipAt 1 7 OSC4Bitwig = Some c
    /\ forall (f : Clip.field) (args : list value),
         deliver (slotAddress 1 7 (Clip.name f)) args OSC4Bitwig
         = Ret tt (writeField (ClipField c f) (arg 0 args) OSC4Bitwig)
               [Emitted (ClipEmitter c) (Clip.name f)
                        [("value", arg 0 args);
                         ("prev", readField (ClipField c f) OSC4Bitwig)] OSC4Bitwig;
                Emitted SongEmitter ("clip:" +:+ Clip.name f)
                        [("id", VNum (Z.of_nat 7)); ("trackId", VNum (Z.of_nat 1 + 1));
                         ("value", arg 0 args);
                         ("prev", readField (ClipField c f) OSC4Bitwig)] OSC4Bitwig].
Proof.
  apply (X9_clip_slot_addresses OSC4Bitwig 1 7); [exists []; reflexivity | lia | lia].
Defined.

(** X10.  Sends are 0-indexed on the wire: in every reachable world, for
    [t] below 8 and [i] below 6, a message on [/track/(t+1)/send/i/name]
    (resp. [/volume]) returns and stores its first argument in
    [song.tracks[t].sends[i].name] (resp. [.volume]), which then reads
    back.  Its two events carry [num = i] and, as [prev], never the send's
    own previous value: always undefined for a name (no Track ever gets a
    name), and the Track's mirrored volume for a volume. *)
Theorem X10_send_addresses (w : World) (t i : nat) (args : list value) :
  reachable w -> (t < 8)%nat -> (i < 6)%nat ->
  deliver (sendAddress t i "name") args w
  = Ret tt (writeSub (SendName t i) (arg 0 args) w)
        (sendEvents "sendName" t i (arg 0 args) VUndef w)
  /\ deliver (sendAddress t i "volume") args w
     = Ret tt (writeSub (SendVolume t i) (arg 0 args) w)
           (sendEvents "sendVolume" t i (arg 0 args)
                       (readField (TrackField t Track.volume_) w) w)
  /\ readSub (SendName t i) (writeSub (SendName t i) (arg 0 args) w) = arg 0 args
  /\ readSub (SendVolume t i) (writeSub (SendVolume t i) (arg 0 args) w) = arg 0 args
  /\ trackIdAt t w = Z.of_nat t + 1.
Proof.
  intros Hr Ht Hi. pose proof (reachable_Inv w Hr) as HI.
  destruct (fresh_track_wiring_at t Ht) as (_ & Hsends & _).
  destruct (Hsends i Hi) as [Hn Hv].
  rewrite <- (Inv_subscribers (sendAddress t i "name") w HI) in Hn.
  rewrite <- (Inv_subscribers (sendAddress t i "volume") w HI) in Hv.
  destruct (Inv_track_at w t HI Ht) as (x & Hx & _ & Hs6 & Hname & _).
  assert (Hs : is_Some (Track.sends x !! i)) by (apply lookup_lt_is_Some; lia).
  destruct Hs as [s Hs].
  destruct (send_listener_returns t i (arg 0 args) w x s Hx Hs) as [[tr1 H1] [tr2 H2]].
  pose proof (sendName_trace t i (arg 0 args) w x Hx) as T1. rewrite H1, Hname in T1.
  pose proof (sendVolume_trace t i (arg 0 args) w x Hx) as T2. rewrite H2 in T2.
  simpl in T1, T2. subst tr1 tr2.
  rewrite (deliver_single _ _ args w Hn), (deliver_single _ _ args w Hv). simpl runListener.
  split; [exact H1|]. split; [simpl readField; rewrite Hx; exact H2|].
  split; [simpl; rewrite list_lookup_alter_eq, Hx; simpl; now rewrite list_lookup_alter_eq, Hs|].
  split; [simpl; rewrite list_lookup_alter_eq, Hx; simpl; now rewrite list_lookup_alter_eq, Hs|].
  now apply Inv_trackIdAt.
Qed.

Lemma X10_send_addresses_witness :
  let w1 := run [OpDeliver "/track/2/send/5/name" [VStr "Delay"]] OSC4Bitwig in
  deliver (sendAddress 1 5 "name") [VStr "Echo"] w1
  = Ret tt (writeSub (SendName 1 5) (VStr "Echo") w1)
        (sendEvents "sendName" 1 5 (VStr "Echo") VUndef w1)
  /\ deliver (sendAddress 1 5 "volume") [VStr "Echo"] w1
     = Ret tt (writeSub (SendVolume 1 5) (VStr "Echo") w1)
           (sendEvents "sendVolume" 1 5 (VStr "Echo")
                       (readField (TrackField 1 Track.volume_) w1) w1)
  /\ readSub (SendName 1 5) (writeSub (SendName 1 5) (VStr "Echo") w1) = VStr "Echo"
  /\ readSub (SendVolume 1 5) (writeSub (SendVolume 1 5) (VStr "Echo") w1) = VStr "Echo"
  /\ trackIdAt 1 w1 = Z.of_nat 1 + 1.
Proof.
  apply (X10_send_addresses (run [OpDeliver "/track/2/send/5/name" [VStr "Delay"]] OSC4Bitwig)
           1 5 [VStr "Echo"]).
  - exists [OpDeliver "/track/2/send/5/name" [VStr "Delay"]]. reflexivity.
  - lia.
  - lia.
Defined.



(** X12.  Which Song commands the Song hears back.  In every reachable
    world [play], [record], [setClick], [setVolume] and [setPan] send to the
    address the listener of the mirrored field is subscribed on; [stop],
    [loop], [setTempo], [setTime], [toggleFxBypass], [select] (the Song
    listens on [/master/selected], not [/master/select]) and [launchScene],
    whatever the scene, send to addresses nothing is subscribed on. *)
Theorem X12_song_commands_and_their_echo (w : World) (v : value) :
  reachable w ->
  echoed SongPlay w = Some [SongL Song.playing_]
  /\ echoed SongRecord w = Some [SongL Song.recording_]
  /\ echoed (SongSetClick v) w = Some [SongL Song.click_]
  /\ echoed (SongSetVolume v) w = Some [SongL Song.volume_]
  /\ echoed (SongSetPan v) w = Some [SongL Song.pan_]
  /\ echoed SongStop w = Some []
  /\ echoed (SongLoop v) w = Some []
  /\ echoed (SongSetTempo v) w = Some []
  /\ echoed (SongSetTime v) w = Some []
  /\ echoed SongToggleFxBypass w = Some []
  /\ echoed SongSelect w = Some []
  /\ echoed (SongLaunchScene v) w = Some [].
Proof.
  intros Hr. pose proof (reachable_Inv w Hr) as HI.
  unfold echoed. simpl runCommand.
  unfold Song_play, Song_record, Song_setClick, Song_setVolume, Song_setPan, Song_stop,
    Song_loop, Song_setTempo, Song_setTime, Song_toggleFxBypass, Song_select,
    Song_launchScene, send.
  destruct (truthy v); rewrite !(Inv_subscribers _ w HI).
  all: repeat (split; [reflexivity|]).
  all: rewrite <- (Inv_subscribers _ w HI); f_equal; now apply scene_address_unsubscribed.
Qed.

Lemma X12_song_commands_and_their_echo_witness :
  echoed SongPlay OSC4Bitwig = Some [SongL Song.playing_]
  /\ echoed SongRecord OSC4Bitwig = Some [SongL Song.recording_]
  /\ echoed (SongSetClick VUndef) OSC4Bitwig = Some [SongL Song.click_]
  /\ echoed (SongSetVolume VUndef) OSC4Bitwig = Some [SongL Song.volume_]
  /\ echoed (SongSetPan VUndef) OSC4Bitwig = Some [SongL Song.pan_]
  /\ echoed SongStop OSC4Bitwig = Some []
  /\ echoed (SongLoop VUndef) OSC4Bitwig = Some []
  /\ echoed (SongSetTempo VUndef) OSC4Bitwig = Some []
  /\ echoed (SongSetTime VUndef) OSC4Bitwig = Some []
  /\ echoed SongToggleFxBypass OSC4Bitwig = Some []
  /\ echoed SongSelect OSC4Bitwig = Some []
  /\ echoed (SongLaunchScene VUndef) OSC4Bitwig = Some [].
Proof.
  apply (X12_song_commands_and_their_echo OSC4Bitwig VUndef). exists []. reflexivity.
Defined.

(** X13.  Messages for different fields commute: delivered in either order
    on two addresses wired to two different entity fields, both messages
    are handled and the mirrored state ends the same, with each field
    holding its own payload. *)
Theorem X13_messages_on_different_fields_commute
    (a1 a2 : string) (r1 r2 : FieldRef) (v1 v2 : value) (w : World) :
  wired a1 r1 w -> wired a2 r2 w -> r1 <> r2 ->
  exists w' tr tr',
    (deliver a1 [v1] ;; deliver a2 [v2]) w = Ret tt w' tr
    /\ (deliver a2 [v2] ;; deliver a1 [v1]) w = Ret tt w' tr'
    /\ readField r1 w' = v1 /\ readField r2 w' = v2
    /\ (forall r, r <> r1 -> r <> r2 -> readField r w' = readField r w).
Proof.
  intros H1 H2 Hne.
  pose proof (deliver_entity_field a1 r1 [v1] w H1) as D1.
  pose proof (deliver_entity_field a2 r2 [v2] w H2) as D2.
  pose proof (deliver_entity_field a2 r2 [v2] _ (wired_writeField a2 r2 r1 v1 w H2)) as D12.
  pose proof (deliver_entity_field a1 r1 [v1] _ (wired_writeField a1 r1 r2 v2 w H1)) as D21.
  change (arg 0 [v1]) with v1 in *. change (arg 0 [v2]) with v2 in *.
  exists (writeField r2 v2 (writeField r1 v1 w)). eexists _, _.
  split; [rewrite (bind_Ret _ _ _ _ _ _ D1); cbv beta; rewrite D12; reflexivity|].
  split.
  { rewrite (bind_Ret _ _ _ _ _ _ D2); cbv beta. rewrite D21.
    now rewrite (writeField_comm r1 r2 v1 v2 w Hne). }
  split.
  { rewrite readField_writeField_ne by congruence. apply readField_writeField, H1. }
  split; [apply readField_writeField, writeField_live, H2|].
  intros r Hr1 Hr2. now rewrite !readField_writeField_ne by congruence.
Qed.

Lemma X13_messages_on_different_fields_commute_witness :
  exists w' tr tr',
    (deliver "/play" [VNum 1] ;; deliver "/track/1/mute" [VNum 1]) OSC4Bitwig = Ret tt w' tr
    /\ (deliver "/track/1/mute" [VNum 1] ;; deliver "/play" [VNum 1]) OSC4Bitwig
       = Ret tt w' tr'
    /\ readField (SongField Song.playing_) w' = VNum 1
    /\ readField (TrackField 0 Track.mute_) w' = VNum 1
    /\ (forall r, r <> SongField Song.playing_ -> r <> TrackField 0 Track.mute_ ->
                  readField r w' = readField r OSC4Bitwig).
Proof.
  apply (X13_messages_on_different_fields_commute "/play" "/track/1/mute"
           (SongField Song.playing_) (TrackField 0 Track.mute_) (VNum 1) (VNum 1) OSC4Bitwig).
  - split; [vm_compute; reflexivity | exact I].
  - split; [vm_compute; reflexivity | vm_compute; eauto].
  - discriminate.
Defined.

(** X14.  A burst of messages on an address wired to the listener of one
    entity field (as the address of every field with a registered listener
    is, in every reachable world: [fresh_wiring], [Inv_wired]) is never
    reordered or coalesced in its events, though it is in the state: all the
    messages are handled; the Song's registry receives one event per message,
    in order, the first with [prev] equal to the field before the burst and
    every other with [prev] equal to the [value] of the one before it; and
    the world after the burst is the world after its last message alone. *)
Theorem X14_bursts_chain_prev (a : string) (r : FieldRef) (vs : list value) (w : World) :
  wired a r w ->
  exists w' tr,
    deliverAll a vs w = Ret tt w' tr
    /\ songEvents tr = combine vs (readField r w :: vs)
    /\ w' = match vs with
            | [] => w
            | _ :: _ => writeField r (List.last vs VUndef) w
            end.
Proof.
  revert w. induction vs as [|v vs IH]; intros w Hw.
  - exists w, []. repeat split.
  - pose proof (deliver_entity_field a r [v] w Hw) as D.
    change (arg 0 [v]) with v in D.
    destruct (IH (writeField r v w) (wired_writeField a r r v w Hw)) as (w' & tr & Hrun & Hev & Hw').
    rewrite (readField_writeField r v w (proj2 Hw)) in Hev.
    exists w', (changeEvents r v (readField r w) w ++ tr).
    split; [|split].
    + unfold deliverAll in *. simpl forEach.
      rewrite (bind_Ret _ _ _ _ _ _ D). cbv beta. now rewrite Hrun.
    + rewrite songEvents_app, songEvents_changeEvents, Hev. reflexivity.
    + rewrite Hw'. destruct vs as [|u vs']; [reflexivity|].
      change (List.last (v :: u :: vs') VUndef) with (List.last (u :: vs') VUndef).
      apply writeField_overwrite.
Qed.

Lemma X14_bursts_chain_prev_witness :
  exists w' tr,
    deliverAll "/master/volume" [VNum 3; VNum 5; VNum 8] OSC4Bitwig = Ret tt w' tr
    /\ songEvents tr
       = combine [VNum 3; VNum 5; VNum 8]
                 (readField (SongField Song.volume_) OSC4Bitwig :: [VNum 3; VNum 5; VNum 8])
    /\ w' = writeField (SongField Song.volume_) (VNum 8) OSC4Bitwig.
Proof.
  apply (X14_bursts_chain_prev "/master/volume" (SongField Song.volume_)
           [VNum 3; VNum 5; VNum 8] OSC4Bitwig).
  split; [vm_compute; reflexivity | exact I].
Defined.



(** X16.  [refreshClips] succeeds exactly on an empty collection.  On a
    live Track whose collection holds a Clip it raises at the first
    [clip.destroy()] with nothing changed and nothing sent.  On a live Track
    whose collection is empty it returns: with [n] the number of indices
    below [numScenes] (none if [numScenes] was never set or is not
    positive), it constructs [n] Clips with the constructor's defaults, ids
    [0 .. n-1] and this Track for owner, makes them the collection, adds six
    subscriptions per Clip after the existing ones, and sends the [n]
    clip-info requests [(track id, 0) .. (track id, n-1)] in that order. *)
Theorem X16_refreshClips_needs_an_empty_collection (t : nat) (x : Track.t) (w : World) :
  trackHeap w !! t = Some x ->
  (Track.clips x <> [] ->
   Track_refreshClips t w = Throw (TypeError "clip.destroy is not a function") w [])
  /\ (Track.clips x = [] ->
      exists w',
        Track_refreshClips t w
        = Ret tt w' (map (infoRequest (Track.id x)) (seq 0 (sceneCount (Track.numScenes x))))
        /\ (Track.clips <$> trackHeap w' !! t)
           = Some (seq (length (clipHeap w)) (sceneCount (Track.numScenes x)))
        /\ clipHeap w'
           = clipHeap w ++ map (freshClip t) (seq 0 (sceneCount (Track.numScenes x)))
        /\ receiver w `prefix_of` receiver w'
        /\ length (receiver w')
           = (length (receiver w) + 6 * sceneCount (Track.numScenes x))%nat
        /\ song w' = song w).
Proof.
  intros Hx. split; [now apply refreshClips_raises|].
  intros Hnil. rewrite (refreshClips_on_empty_collection t w x Hx Hnil).
  eexists. split; [reflexivity|]. unfold afterLoop. simpl.
  split.
  { rewrite list_lookup_insert_eq by (now apply lookup_lt_Some in Hx). simpl. now rewrite Hnil. }
  split; [reflexivity|]. split; [now apply prefix_app_r|]. split; [|reflexivity].
  rewrite length_app, length_clipSubscriptions, length_zip_seq. lia.
Qed.

Lemma X16_refreshClips_needs_an_empty_collection_witness :
  (Track.clips (Track.mk 1 [] [] (VNum 0) (VNum 0) (VBool false) (VNum 0) (VNum 0) (VNum 0)
                         VUndef VUndef (Some 2)) <> [] ->
   Track_refreshClips 0
     (mkWorld (song OSC4Bitwig)
        [Track.mk 1 [] [] (VNum 0) (VNum 0) (VBool false) (VNum 0) (VNum 0) (VNum 0)
                  VUndef VUndef (Some 2)] [] [])
   = Throw (TypeError "clip.destroy is not a function")
       (mkWorld (song OSC4Bitwig)
          [Track.mk 1 [] [] (VNum 0) (VNum 0) (VBool false) (VNum 0) (VNum 0) (VNum 0)
                    VUndef VUndef (Some 2)] [] []) [])
  /\ (Track.clips (Track.mk 1 [] [] (VNum 0) (VNum 0) (VBool false) (VNum 0) (VNum 0) (VNum 0)
                            VUndef VUndef (Some 2)) = [] ->
      exists w',
        Track_refreshClips 0
          (mkWorld (song OSC4Bitwig)
             [Track.mk 1 [] [] (VNum 0) (VNum 0) (VBool false) (VNum 0) (VNum 0) (VNum 0)
                       VUndef VUndef (Some 2)] [] [])
        = Ret tt w' (map (infoRequest 1) (seq 0 2))
        /\ (Track.clips <$> trackHeap w' !! O) = Some (seq 0 2)
        /\ clipHeap w' = [] ++ map (freshClip 0) (seq 0 2)
        /\ [] `prefix_of` receiver w'
        /\ length (receiver w') = (0 + 6 * 2)%nat
        /\ song w' = song OSC4Bitwig).
Proof.
  exact (X16_refreshClips_needs_an_empty_collection 0
           (Track.mk 1 [] [] (VNum 0) (VNum 0) (VBool false) (VNum 0) (VNum 0) (VNum 0)
                     VUndef VUndef (Some 2))
           (mkWorld (song OSC4Bitwig)
              [Track.mk 1 [] [] (VNum 0) (VNum 0) (VBool false) (VNum 0) (VNum 0) (VNum 0)
                        VUndef VUndef (Some 2)] [] [])
           eq_refl).
Defined.

(** X17.  A mirrored field changes only through a message on its own
    address.  In every reachable world, if an operation (an inbound message
    on any address, any command, [setNumScenes], [refreshClips]) leaves an
    entity field with another value than it had, then that operation is an
    inbound message on the address of that very field, the field has a
    registered listener, and its new value is the first argument of the
    message. *)
Theorem X17_fields_change_only_by_their_own_message (w : World) (o : Op) (r : FieldRef) :
  reachable w ->
  readField r (worldOf (step o w)) <> readField r w ->
  exists args,
    o = OpDeliver (wireAddress r OSC4Bitwig) args
    /\ In r (entityFields OSC4Bitwig)
    /\ readField r (worldOf (step o w)) = arg 0 args.
Proof.
  intros Hr Hch. pose proof (reachable_Inv w Hr) as HI.
  destruct o as [a args | cmd | t n | t]; simpl in Hch |- *.
  - pose proof (Inv_one_handler a w HI) as Hone.
    destruct (subscribers a w) as [|l [|l' ls]] eqn:Hs; [| |simpl in Hone; lia].
    { rewrite (deliver_unsubscribed_world a args w Hs) in Hch. now destruct Hch. }
    rewrite (deliver_single a l args w Hs) in Hch |- *.
    assert (Hin : In (a, l) (receiver OSC4Bitwig)).
    { rewrite <- (proj1 (Inv_parts w HI)). apply subscribers_In. rewrite Hs. now left. }
    pose proof (proj1 (forallb_forall _ _) fresh_receiver_on_addresses _ Hin) as Hon.
    unfold onItsAddress in Hon. simpl fst in Hon. simpl snd in Hon.
    destruct (fieldOfListener l) as [r'|] eqn:Hf.
    + apply andb_prop in Hon. destruct Hon as [Ha Hr'].
      apply String.eqb_eq in Ha. apply registeredField_In in Hr'.
      assert (Hlive : fieldLive r' w).
      { pose proof (Inv_subscriber_live a l w HI) as Hl. rewrite Hs in Hl.
        specialize (Hl (or_introl eq_refl)).
        rewrite <- (listenerOf_fieldOfListener l r' Hf) in Hl. now destruct r'. }
      rewrite <- (listenerOf_fieldOfListener l r' Hf) in Hch |- *.
      rewrite (listener_spec r' args w Hlive) in Hch |- *. simpl worldOf in Hch |- *.
      destruct (decide (r' = r)) as [->|Hne].
      * exists args. split; [now rewrite Ha|]. split; [exact Hr'|].
        now apply readField_writeField.
      * destruct Hch. now apply readField_writeField_ne.
    + destruct Hch. now apply subfield_listener_frame.
  - rewrite runCommand_world in Hch. now destruct Hch.
  - destruct Hch. apply setNumScenes_frame.
  - rewrite (Inv_refreshClips_world t w HI) in Hch. now destruct Hch.
Qed.

Lemma X17_fields_change_only_by_their_own_message_witness :
  exists args,
    OpDeliver "/track/1/pan" [VNum 9]
    = OpDeliver (wireAddress (TrackField 0 Track.pan_) OSC4Bitwig) args
    /\ In (TrackField 0 Track.pan_) (entityFields OSC4Bitwig)
    /\ readField (TrackField 0 Track.pan_)
                 (worldOf (step (OpDeliver "/track/1/pan" [VNum 9]) OSC4Bitwig))
       = arg 0 args.
Proof.
  apply (X17_fields_change_only_by_their_own_message OSC4Bitwig
           (OpDeliver "/track/1/pan" [VNum 9]) (TrackField 0 Track.pan_)).
  - exists []. reflexivity.
  - vm_compute. discriminate.
Defined.
